(** * Mistodon social protocol: interaction store, post lookup and user feed

    A shallow embedding of the TypeScript sources

      - hooks/usePostInteractions  (likePost, unlikePost, repost, unrepost,
        replyToPost, isLiked, isReposted, getLikeCount, getRepostCount),
      - components/PostDetail      (loadPostFromSoul, the 8 s timeout),
      - hooks/useUserPostsBidirectional (postsMap),
      - components/PostCard        (isOwnPost, isMyPostsPage, isRepostedPost),

    over a path-addressable graph store.  The GunDB graph is an external
    collaborator: it is modelled at its boundary as a finite map from paths
    to JavaScript values, where [put] overwrites the value at a path,
    [once] is a one-shot read and [map().once] visits the children of a
    path. *)

From stdpp Require Import gmap strings list fin_maps sorting.
From Stdlib Require Import ZArith NArith Lia.

Open Scope string_scope.
Open Scope list_scope.
Set Warnings "-register-all".

(** ** JavaScript values *)

Inductive JsVal : Type :=
  | JUndefined
  | JNull
  | JBool (b : bool)
  | JNum (n : Z)
  | JStr (s : string)
  | JObj (fields : list (string * JsVal))
  | JFun.      (* a function: what the methods of [Object.prototype] are *)

(** JavaScript truthiness ([if (v)], [!!v], [a && b]). *)
Definition truthy (v : JsVal) : bool :=
  match v with
  | JUndefined | JNull => false
  | JBool b => b
  | JNum n => negb (n =? 0)%Z
  | JStr s => negb (String.eqb s "")
  | JObj _ | JFun => true
  end.

(** [o.k] for a fixed property name [k] ([_], [timestamp], [authorPub],
    ...): the first binding of [k].  None of the names read this way is
    defined by [Object.prototype]. *)
Fixpoint objGet (fields : list (string * JsVal)) (k : string) : JsVal :=
  match fields with
  | [] => JUndefined
  | (k', v) :: rest => if String.eqb k' k then v else objGet rest k
  end.

(** [const { _, ...rest } = data]. *)
Definition stripMeta (fields : list (string * JsVal)) : list (string * JsVal) :=
  List.filter (fun kv => negb (String.eqb (fst kv) "_")) fields.

(** [key.startsWith('_')]. *)
Definition startsWithUnderscore (key : string) : bool := String.prefix "_" key.

(** A JavaScript object used as a dictionary ([Record<string, ...>]). *)
Abbreviation JsRecord := (gmap string JsVal).

(** The methods every plain object inherits from [Object.prototype]. *)
Definition prototypeMethods : list string :=
  ["constructor"; "hasOwnProperty"; "isPrototypeOf"; "propertyIsEnumerable";
   "toLocaleString"; "toString"; "valueOf";
   "__defineGetter__"; "__defineSetter__"; "__lookupGetter__"; "__lookupSetter__"].

Definition objectPrototype : JsVal :=
  JObj (List.map (fun k => (k, JFun)) prototypeMethods).

(** [Object.prototype[key]]: a method, the prototype itself for the
    accessor [__proto__], else [undefined]. *)
Definition inherited (key : string) : JsVal :=
  if String.eqb key "__proto__" then objectPrototype
  else if existsb (String.eqb key) prototypeMethods then JFun
  else JUndefined.

(** [r[key]] for a computed key: the own property when there is one, else
    what the prototype chain gives. *)
Definition jsGet (r : JsRecord) (key : string) : JsVal :=
  match r !! key with
  | Some v => v
  | None => inherited key
  end.

(** [Object.keys(r)]. *)
Definition objectKeys (r : JsRecord) : list string := (map_to_list r).*1.

(** ** The graph store *)

Abbreviation Path := (list string).
Abbreviation Store := (gmap (list string) JsVal).

Definition appName : string := "shogun-mistodon-clone-v1".

(** [childKey p q = Some k] exactly when [q = p ++ [k]]. *)
Fixpoint childKey (p q : Path) : option string :=
  match p, q with
  | [], [k] => Some k
  | a :: p', b :: q' => if String.eqb a b then childKey p' q' else None
  | _, _ => None
  end.

(** What a read hands to its callback for the value stored at [q].  An
    object is a node of the graph: GunDB delivers it with its metadata under
    ['_'] (the soul; the code only tests the field's presence or strips it).
    Other values arrive as they are. *)
Definition nodeMeta (q : Path) : JsVal := JObj [("#", JStr (String.concat "/" q))].

Definition delivered (q : Path) (v : JsVal) : JsVal :=
  match v with
  | JObj f => JObj (("_", nodeMeta q) :: f)
  | _ => v
  end.

(** The children visited by [node.map().once(cb)]: every [k] with a value
    stored at [p ++ [k]], as it is delivered. *)
Definition children (s : Store) (p : Path) : JsRecord :=
  map_fold (fun q v acc =>
              match childKey p q with
              | Some k => <[k := delivered q v]> acc
              | None => acc
              end) ∅ s.

Definition likesPath (postId : string) : Path := [appName; "posts"; postId; "likes"].
Definition repostsPath (postId : string) : Path := [appName; "posts"; postId; "reposts"].
Definition mirrorLikesPath (postId : string) : Path := ["interactions"; "posts"; postId; "likes"].
Definition mirrorRepostsPath (postId : string) : Path := ["interactions"; "posts"; postId; "reposts"].
Definition userIndexPath (userPub postId : string) : Path := ["users"; userPub; "posts"; postId].
Definition ownPostsPath (postId : string) : Path := ["posts"; postId].

(** ** Posts *)

Record Post : Type := mkPost {
  id : string;
  author : string;
  content : string;
  timestamp : Z;
  likes : option JsRecord;
  reposts : option JsRecord;
  replyTo : option string;
  media : option string
}.

(** [Object.keys(r).filter((key) => r[key] && !key.startsWith('_')).length] *)
Definition countKeys (r : JsRecord) : nat :=
  length (List.filter
            (fun key => truthy (jsGet r key) && negb (startsWithUnderscore key))
            (objectKeys r)).

Definition getLikeCount (post : Post) : nat :=
  match likes post with
  | None => 0
  | Some r => countKeys r
  end.

Definition getRepostCount (post : Post) : nat :=
  match reposts post with
  | None => 0
  | Some r => countKeys r
  end.

(** The interaction loader of PostDetail:
    [likesNode.map().once((likeValue, likeKey) => { if (...) likes[likeKey] = true })]. *)
Definition hasNoMeta (v : JsVal) : bool :=
  match v with
  | JObj f => negb (truthy (objGet f "_"))
  | _ => false
  end.

Definition likeAccepted (likeKey : string) (likeValue : JsVal) : bool :=
  negb (String.eqb likeKey "") && negb (startsWithUnderscore likeKey)
  && (match likeValue with JBool true => true | _ => hasNoMeta likeValue end).

Definition repostAccepted (repostKey : string) (repostValue : JsVal) : bool :=
  negb (String.eqb repostKey "") && negb (startsWithUnderscore repostKey)
  && hasNoMeta repostValue.

Definition loadLikes (s : Store) (postId : string) : JsRecord :=
  map_imap (fun k v => if likeAccepted k v then Some (JBool true) else None)
           (children s (likesPath postId)).

Definition loadReposts (s : Store) (postId : string) : JsRecord :=
  map_imap (fun k v => if repostAccepted k v then Some (JBool true) else None)
           (children s (repostsPath postId)).

(** ** Identity provider

    [useShogun()] gives [sdk || core] (with its [gun] instance), [isLoggedIn]
    and [userPub]; [gun.user()] is the authenticated user's own graph handle.
    [getCurrentUserPub] lives in utils/gunHelpers.  Both are calls into code
    outside these sources: the session records what each returns and whether
    it throws instead. *)

Record UserIs : Type := mkUserIs { pub : string }.
Record GunUser : Type := mkGunUser { is_ : option UserIs }.

Record Session : Type := mkSession {
  hasGun : bool;                        (* shogunCore?.gun *)
  isLoggedIn : bool;
  getCurrentUserPub : option string;    (* what getCurrentUserPub(gun) returns, None = null *)
  user : option GunUser;                (* what gun.user() returns *)
  SEA : bool;                           (* (gun as any).SEA *)
  ctxUserPub : option string;           (* useShogun().userPub *)
  pubThrows : bool;                     (* getCurrentUserPub(gun) throws *)
  userThrows : bool                     (* gun.user() throws *)
}.

(** A string used as a condition: [''] is falsy. *)
Definition truthyStr (o : option string) : option string :=
  match o with
  | Some s => if String.eqb s "" then None else Some s
  | None => None
  end.

(** [user && user.is && user.is.pub], yielding the key when truthy. *)
Definition userIsPub (u : option GunUser) : option string :=
  match u with
  | Some g => match is_ g with
              | Some i => truthyStr (Some (pub i))
              | None => None
              end
  | None => None
  end.

(** [let userPub = getCurrentUserPub(gun);
    if (!userPub && user && user.is && user.is.pub) userPub = user.is.pub;
    if (!userPub || !user || !user.is || !user.is.pub) return {...}]:
    the key [repost] and [unrepost] go on with, if any. *)
Definition resolvePub (usr : option GunUser) (userPub0 : option string) : option string :=
  let userPub :=
    match truthyStr userPub0 with
    | Some p => Some p
    | None => userIsPub usr
    end in
  match userPub, userIsPub usr with
  | Some p, Some _ => Some p
  | _, _ => None
  end.

(** ** The world and its effects *)

Inductive Write : Type :=
  | WGun (p : Path) (v : JsVal)       (* gun.get(..)...put(v) *)
  | WUser (p : Path) (v : JsVal).     (* gun.user().get(..)...put(v) *)

Record World : Type := mkWorld {
  graph : Store;          (* the public graph *)
  userGraph : Store;      (* the authenticated user's own graph *)
  writes : list Write;    (* every put issued, oldest first *)
  ticks : nat;            (* number of Date.now() calls so far *)
  calls : nat             (* number of graph calls so far *)
}.

(** What the environment decides: the clock readings and which graph calls
    throw. *)
Record Env : Type := mkEnv {
  now : nat -> Z;
  throws : nat -> bool
}.

Inductive Outcome (A : Type) : Type :=
  | Returned (a : A)
  | Thrown.
Arguments Returned {A} a.
Arguments Thrown {A}.

Definition M (A : Type) : Type := World -> Outcome A * World.

#[global] Instance M_ret : MRet M := fun A a w => (Returned a, w).

#[global] Instance M_bind : MBind M := fun A B k m w =>
  match m w with
  | (Returned a, w') => k a w'
  | (Thrown, w') => (Thrown, w')
  end.

(** [throw]: nothing is caught here. *)
Definition throw {A} : M A := fun w => (Thrown, w).

(** [try { body } catch (err) { handler }] *)
Definition tryCatch {A} (body handler : M A) : M A :=
  fun w => match body w with
           | (Returned a, w') => (Returned a, w')
           | (Thrown, w') => handler w'
           end.

(** ** usePostInteractions *)

Record ActionResult : Type := mkResult {
  success : bool;
  error : option string
}.

Definition succeeded : ActionResult := mkResult true None.
Definition failed (msg : string) : ActionResult := mkResult false (Some msg).

Section Interactions.
Variable E : Env.
Variable S : Session.

(** Every graph call may throw; it is counted either way. *)
Definition gunCall {A} (f : World -> A * World) : M A :=
  fun w =>
    let w1 := mkWorld (graph w) (userGraph w) (writes w) (ticks w) (Datatypes.S (calls w)) in
    if throws E (calls w) then (Thrown, w1)
    else let '(a, w2) := f w1 in (Returned a, w2).

(** [gun.get(p1)...get(pn).put(v)]: overwrite at path. *)
Definition put (p : Path) (v : JsVal) : M unit :=
  gunCall (fun w =>
    (tt, mkWorld (<[p := v]> (graph w)) (userGraph w)
                 (writes w ++ [WGun p v]) (ticks w) (calls w))).

(** [user.get(p1)...get(pn).put(v)] on [user = gun.user()]. *)
Definition userPut (p : Path) (v : JsVal) : M unit :=
  gunCall (fun w =>
    (tt, mkWorld (graph w) (<[p := v]> (userGraph w))
                 (writes w ++ [WUser p v]) (ticks w) (calls w))).

(** [await new Promise(resolve => gun.get(p1)...get(pn).once(resolve))]:
    a one-shot read, [undefined] when nothing is stored. *)
Definition once (p : Path) : M JsVal :=
  gunCall (fun w => (delivered p (default JUndefined (graph w !! p)), w)).

(** [getCurrentUserPub(gun)] and [gun.user()]: they return what the session
    says, or throw. *)
Definition callPub : M (option string) :=
  if pubThrows S then throw else mret (getCurrentUserPub S).

Definition callUser : M (option GunUser) :=
  if userThrows S then throw else mret (user S).

(** [Date.now()] *)
Definition dateNow : M Z :=
  fun w => (Returned (now E (ticks w)),
            mkWorld (graph w) (userGraph w) (writes w) (Datatypes.S (ticks w)) (calls w)).

(** [if (data && typeof data === 'object') { const { _, ...post } = data;
    resolve(post) } else resolve(null)] *)
Definition readPost (p : Path) : M (option (list (string * JsVal))) :=
  data ← once p;
  mret (match data with
        | JObj f => Some (stripMeta f)
        | _ => None
        end).

Definition likePost (postId : string) : M ActionResult :=
  if negb (hasGun S) || negb (isLoggedIn S) then mret (failed "Not authenticated")
  else
    userPub0 ← callPub;
    match truthyStr userPub0 with
    | None =>
        usr ← callUser;
        match userIsPub usr with
        | Some actualUserPub =>
            tryCatch
              (put (likesPath postId ++ [actualUserPub]) (JBool true);;
               put (mirrorLikesPath postId ++ [actualUserPub]) (JBool true);;
               mret succeeded)
              (mret (failed "Failed to like post"))
        | None => mret (failed "User not authenticated")
        end
    | Some userPub =>
        tryCatch
          (put (likesPath postId ++ [userPub]) (JBool true);;
           put (mirrorLikesPath postId ++ [userPub]) (JBool true);;
           mret succeeded)
          (mret (failed "Failed to like post"))
    end.

Definition unlikePost (postId : string) : M ActionResult :=
  if negb (hasGun S) || negb (isLoggedIn S) then mret (failed "Not authenticated")
  else
    userPub0 ← callPub;
    match truthyStr userPub0 with
    | None =>
        usr ← callUser;
        match userIsPub usr with
        | Some actualUserPub =>
            tryCatch
              (put (likesPath postId ++ [actualUserPub]) JNull;;
               put (mirrorLikesPath postId ++ [actualUserPub]) JNull;;
               mret succeeded)
              (mret (failed "Failed to unlike post"))
        | None => mret (failed "User not authenticated")
        end
    | Some userPub =>
        tryCatch
          (put (likesPath postId ++ [userPub]) JNull;;
           put (mirrorLikesPath postId ++ [userPub]) JNull;;
           mret succeeded)
          (mret (failed "Failed to unlike post"))
    end.

Definition repostEntry (postId : string) (repostTimestamp : JsVal) : JsVal :=
  JObj [("id", JStr postId); ("timestamp", repostTimestamp); ("reposted", JBool true)].

(** [const user = gun.user(); let userPub = getCurrentUserPub(gun); ...]
    come before the [try]. *)
Definition repost (postId : string) : M ActionResult :=
  if negb (hasGun S) || negb (isLoggedIn S) then mret (failed "Not authenticated")
  else
    usr ← callUser;
    userPub0 ← callPub;
    match resolvePub usr userPub0 with
    | None => mret (failed "User not authenticated")
    | Some userPub =>
        tryCatch
          (fromHash ←
             (if SEA S then
                soul ← once ["#posts"; postId];
                match soul with
                | JStr postSoul =>
                    if String.eqb postSoul "" then mret None
                    else readPost [postSoul]
                | _ => mret None
                end
              else mret None);
           originalPost ←
             match fromHash with
             | Some post => mret (Some post)
             | None => readPost [appName; "posts"; postId]
             end;
           match originalPost with
           | None => mret (failed "Post not found")
           | Some post =>
               repostTimestamp ←
                 (if truthy (objGet post "timestamp")
                  then mret (objGet post "timestamp")
                  else t ← dateNow; mret (JNum t));
               t1 ← dateNow;
               put (repostsPath postId ++ [userPub]) (JObj [("timestamp", JNum t1)]);;
               t2 ← dateNow;
               put (mirrorRepostsPath postId ++ [userPub]) (JObj [("timestamp", JNum t2)]);;
               userPut (ownPostsPath postId) (repostEntry postId repostTimestamp);;
               put (userIndexPath userPub postId) (repostEntry postId repostTimestamp);;
               mret succeeded
           end)
          (mret (failed "Failed to repost"))
    end.

Definition unrepost (postId : string) : M ActionResult :=
  if negb (hasGun S) || negb (isLoggedIn S) then mret (failed "Not authenticated")
  else
    usr ← callUser;
    userPub0 ← callPub;
    match resolvePub usr userPub0 with
    | None => mret (failed "User not authenticated")
    | Some userPub =>
        tryCatch
          (put (repostsPath postId ++ [userPub]) JNull;;
           put (mirrorRepostsPath postId ++ [userPub]) JNull;;
           userPut (ownPostsPath postId) JNull;;
           put (userIndexPath userPub postId) JNull;;
           mret succeeded)
          (mret (failed "Failed to unrepost"))
    end.

Definition replyError : string :=
  "Please use publishPost from useSocialProtocol with replyToId parameter for content-addressed replies".

Definition replyToPost (postId content : string) : M ActionResult :=
  mret (failed replyError).

(** [!!(v && (v === true || (typeof v === 'object' && !v._)))] *)
Definition repostMarker (repostValue : JsVal) : bool :=
  match repostValue with
  | JBool true => true
  | _ => hasNoMeta repostValue
  end.

(** [isLiked] and [isReposted] make the same two calls, outside any [try]:
    a throw of either is a throw of the function. *)
Definition isLiked (post : Post) : Outcome bool :=
  if negb (hasGun S) || negb (isLoggedIn S) then Returned false
  else if pubThrows S then Thrown
  else
    match truthyStr (getCurrentUserPub S) with
    | None =>
        if userThrows S then Thrown
        else
          match userIsPub (user S) with
          | Some actualUserPub =>
              Returned (match likes post with
                        | Some r => truthy (jsGet r actualUserPub)
                        | None => false
                        end)
          | None => Returned false
          end
    | Some userPub =>
        Returned (match likes post with
                  | None => false
                  | Some r => truthy (jsGet r userPub)
                  end)
    end.

Definition isReposted (post : Post) : Outcome bool :=
  if negb (hasGun S) || negb (isLoggedIn S) then Returned false
  else if pubThrows S then Thrown
  else
    match truthyStr (getCurrentUserPub S) with
    | None =>
        if userThrows S then Thrown
        else
          match userIsPub (user S) with
          | Some actualUserPub =>
              Returned (match reposts post with
                        | Some r => repostMarker (jsGet r actualUserPub)
                        | None => false
                        end)
          | None => Returned false
          end
    | Some userPub =>
        Returned (match reposts post with
                  | None => false
                  | Some r => repostMarker (jsGet r userPub)
                  end)
    end.

End Interactions.

(** ** Conversion of a raw payload to [Post]

    The payload fields are read through [a || b || ''] chains; the [Post]
    type declares [author], [content] as strings and [timestamp] as a
    number. *)

Definition strField (f : list (string * JsVal)) (k : string) : string :=
  match objGet f k with
  | JStr s => s
  | _ => ""
  end.

(** [a || b] on strings. *)
Definition orStr (a b : string) : string := if String.eqb a "" then b else a.

(** [v || fallback] on numbers. *)
Definition numOr (v : JsVal) (fallback : Z) : Z :=
  match v with
  | JNum n => if (n =? 0)%Z then fallback else n
  | _ => fallback
  end.

Definition optField (f : list (string * JsVal)) (k : string) : option string :=
  match objGet f k with
  | JStr s => if String.eqb s "" then None else Some s
  | _ => None
  end.

(** ** components/PostDetail: the lookup effect *)

Module PostDetail.

Inductive Channel : Type :=
  | HashTable                      (* gun.get('#posts').get(postId) *)
  | TimelineShard (i : nat).       (* timeline/{day - i}/{postId}, i < 7 *)

Inductive Event : Type :=
  | Delivered (ch : Channel) (postSoul : JsVal)   (* an [.on] callback *)
  | PostData (data : JsVal)                       (* the [.once] callback of the soul read *)
  | AuthorProfile                                 (* the getPostAuthor callback *)
  | Cleanup.                                      (* the effect's disposer *)

Record State : Type := mkState {
  found : bool;
  loaded : list string;          (* souls handed to gun.get(postSoul).once *)
  pendingReads : nat;
  draft : option Post;
  enrichDue : option N;          (* deadline of setTimeout(..., 100) *)
  authorAsked : bool;
  post : option Post;
  loading : bool;
  error : option string;
  timeoutArmed : bool;           (* setTimeout(..., 8000) not yet fired or cleared *)
  listening : bool;
  elapsed : N                    (* ms since the effect ran *)
}.

Definition timeoutMs : N := 8000.
Definition enrichDelayMs : N := 100.

(** State right after the effect body ran: [setLoading(true)],
    [setError(null)], [found = false], listeners and timeout installed. *)
Definition init : State :=
  mkState false [] 0 None None false None true None true true 0%N.

Section Lookup.
Variable G : Store.          (* the graph read by the interaction loader *)
Variable postId : string.
Variable t0 : Z.             (* Date.now() when the effect ran *)

Definition loadPostFromSoul (postSoul : JsVal) (st : State) : State :=
  match postSoul with
  | JStr soul =>
      if String.eqb soul "" || found st then st
      else mkState true (loaded st ++ [soul]) (Datatypes.S (pendingReads st))
                   (draft st) (enrichDue st) (authorAsked st) (post st)
                   (loading st) (error st) (timeoutArmed st) (listening st)
                   (elapsed st)
  | _ => st
  end.

(** [hashNode.on(...)] and [timelineNode.on(...)]:
    [if (postSoul && typeof postSoul === 'string') loadPostFromSoul(postSoul)] *)
Definition onSoul (postSoul : JsVal) (st : State) : State :=
  match postSoul with
  | JStr soul => if String.eqb soul "" then st else loadPostFromSoul postSoul st
  | _ => st
  end.

(** The [Post] handed to [setPost]: the payload fields, with [likes] and
    [reposts] replaced by the records the interaction loader filled from the
    graph ([post.likes = likes; post.reposts = reposts]). *)
Definition toPost (f : list (string * JsVal)) (nowMs : Z) : Post :=
  mkPost postId
         (orStr (strField f "authorPub") (strField f "author"))
         (orStr (strField f "text") (strField f "content"))
         (numOr (objGet f "timestamp") nowMs)
         (Some (loadLikes G postId))
         (Some (loadReposts G postId))
         (optField f "replyTo")
         (optField f "media").

Definition onPostData (data : JsVal) (st : State) : State :=
  match pendingReads st with
  | O => st
  | Datatypes.S n =>
      match data with
      | JObj f =>
          mkState (found st) (loaded st) n
                  (Some (toPost (stripMeta f) (t0 + Z.of_N (elapsed st))))
                  (Some (elapsed st + enrichDelayMs)%N) (authorAsked st) (post st)
                  (loading st) (error st) (timeoutArmed st) (listening st)
                  (elapsed st)
      | _ =>
          mkState (found st) (loaded st) n (draft st) (enrichDue st)
                  (authorAsked st) (post st)
                  false (Some "Post data not found")
                  (timeoutArmed st) (listening st) (elapsed st)
      end
  end.

Definition onAuthorProfile (st : State) : State :=
  if authorAsked st then
    mkState (found st) (loaded st) (pendingReads st) (draft st) (enrichDue st)
            (authorAsked st) (draft st) false (error st)
            (timeoutArmed st) (listening st) (elapsed st)
  else st.

(** [setTimeout(() => { if (!found) { setError('Post not found');
    setLoading(false) } }, 8000)] *)
Definition fireTimeout (st : State) : State :=
  if timeoutArmed st && (timeoutMs <=? elapsed st)%N then
    if found st then
      mkState (found st) (loaded st) (pendingReads st) (draft st) (enrichDue st)
              (authorAsked st) (post st) (loading st) (error st)
              false (listening st) (elapsed st)
    else
      mkState (found st) (loaded st) (pendingReads st) (draft st) (enrichDue st)
              (authorAsked st) (post st) false (Some "Post not found")
              false (listening st) (elapsed st)
  else st.

(** The 100 ms timer: copies the loaded interactions and calls
    getPostAuthor. *)
Definition fireEnrich (st : State) : State :=
  match enrichDue st with
  | Some d =>
      if (d <=? elapsed st)%N then
        mkState (found st) (loaded st) (pendingReads st) (draft st) None
                true (post st) (loading st) (error st)
                (timeoutArmed st) (listening st) (elapsed st)
      else st
  | None => st
  end.

(** Let [dt] ms pass and run the timers that became due. *)
Definition advance (dt : N) (st : State) : State :=
  fireEnrich (fireTimeout
    (mkState (found st) (loaded st) (pendingReads st) (draft st) (enrichDue st)
             (authorAsked st) (post st) (loading st) (error st)
             (timeoutArmed st) (listening st) (elapsed st + dt)%N)).

(** [clearTimeout(timeout); hashNode.off(); timelineListeners.forEach(...)] *)
Definition cleanup (st : State) : State :=
  mkState (found st) (loaded st) (pendingReads st) (draft st) (enrichDue st)
          (authorAsked st) (post st) (loading st) (error st)
          false false (elapsed st).

Definition handle (ev : Event) (st : State) : State :=
  match ev with
  | Delivered _ postSoul => if listening st then onSoul postSoul st else st
  | PostData data => onPostData data st
  | AuthorProfile => onAuthorProfile st
  | Cleanup => cleanup st
  end.

(** One step: [dt] ms after the previous event, [ev] happens. *)
Definition step (st : State) (tev : N * Event) : State :=
  handle (snd tev) (advance (fst tev) st).

Definition run (trace : list (N * Event)) : State := fold_left step trace init.

(** The trace, then [dt] more ms of silence. *)
Definition runThen (trace : list (N * Event)) (dt : N) : State :=
  advance dt (run trace).

End Lookup.

Inductive View : Type :=
  | LoadingView
  | NotFoundView (message : string)
  | PostView (p : Post).

(** The render branches: [if (loading) ...; if (error || !post) ...]. *)
Definition view (st : State) : View :=
  if loading st then LoadingView
  else match error st, post st with
       | Some e, _ => NotFoundView e
       | None, None => NotFoundView "The post you are looking for does not exist."
       | None, Some p => PostView p
       end.

(** A delivery that passes the [postSoul && typeof postSoul === 'string']
    test. *)
Definition validSoul (v : JsVal) : bool :=
  match v with
  | JStr s => negb (String.eqb s "")
  | _ => false
  end.

End PostDetail.

(** ** hooks/useUserPostsBidirectional: the getUserPosts callback *)

Module UserPosts.

(** [PostWithAuthor extends Post]: the fields are typed by the interface
    ([timestamp: number]; a missing string reads as [''], a missing number
    as [0]). *)
Record PostWithAuthor : Type := mkPWA {
  pwa_id : string;
  pwa_authorPub : string;
  pwa_author : string;
  pwa_text : string;
  pwa_content : string;
  pwa_timestamp : Z;
  pwa_likes : option JsRecord;
  pwa_reposts : option JsRecord;
  pwa_replyTo : option string;
  pwa_media : option string
}.

(** A JavaScript [Map<string, Post>]: [set] on a present key replaces the
    value in place, on a new key appends; iteration is in insertion order. *)
Fixpoint mapSet (k : string) (v : Post) (m : list (string * Post)) : list (string * Post) :=
  match m with
  | [] => [(k, v)]
  | (k', v') :: rest =>
      if String.eqb k' k then (k, v) :: rest else (k', v') :: mapSet k v rest
  end.

Definition mapValues (m : list (string * Post)) : list Post := m.*2.

(** [.sort((a, b) => b.timestamp - a.timestamp)]: stable, newest first. *)
Fixpoint insertNewestFirst (x : Post) (l : list Post) : list Post :=
  match l with
  | [] => [x]
  | y :: rest =>
      if (timestamp y <=? timestamp x)%Z then x :: y :: rest
      else y :: insertNewestFirst x rest
  end.

Definition sortNewestFirst (l : list Post) : list Post :=
  foldr insertNewestFirst [] l.

(** [postsMap] and the [posts], [loading] state cells.  (The 5 s timer that
    only clears [loading] while the map is empty is left out.) *)
Record State : Type := mkState {
  postsMap : list (string * Post);
  posts : list Post;
  loading : bool
}.

Definition init : State := mkState [] [] true.

(** [timestamp: p.timestamp || Date.now()], [replyTo: p.replyTo || undefined],
    [media: p.media || undefined]: [0] and [''] are falsy. *)
Definition toPost (p : PostWithAuthor) (nowMs : Z) : Post :=
  mkPost (pwa_id p)
         (orStr (pwa_authorPub p) (pwa_author p))
         (orStr (pwa_text p) (pwa_content p))
         (if (pwa_timestamp p =? 0)%Z then nowMs else pwa_timestamp p)
         (Some (default ∅ (pwa_likes p)))
         (Some (default ∅ (pwa_reposts p)))
         (truthyStr (pwa_replyTo p))
         (truthyStr (pwa_media p)).

(** One invocation of the callback; [delivered = None] is a null delivery,
    [nowMs] is what [Date.now()] reads. *)
Definition onPost (st : State) (d : option PostWithAuthor * Z) : State :=
  match fst d with
  | None => st
  | Some p =>
      if String.eqb (pwa_id p) "" then st
      else
        let post := toPost p (snd d) in
        let postsMap' := mapSet (id post) post (postsMap st) in
        mkState postsMap' (sortNewestFirst (mapValues postsMap')) false
  end.

Definition deliver (ds : list (option PostWithAuthor * Z)) : State :=
  fold_left onPost ds init.

End UserPosts.

(** ** components/PostCard: is the displayed post a repost? *)

Module PostCard.

(** [post.author === currentUserPub] *)
Definition isOwnPost (S : Session) (post : Post) : bool :=
  match ctxUserPub S with
  | Some me => String.eqb (author post) me
  | None => false
  end.

Definition isMyPostsPage (pathname : string) : bool := String.eqb pathname "/my-posts".

(** [const reposted = isReposted(post)] is evaluated by every render, then
    [isMyPostsPage ? !isOwnPost : !isOwnPost && reposted]. *)
Definition isRepostedPost (S : Session) (pathname : string) (post : Post) : Outcome bool :=
  match isReposted S post with
  | Returned reposted =>
      Returned (if isMyPostsPage pathname then negb (isOwnPost S post)
                else negb (isOwnPost S post) && reposted)
  | Thrown => Thrown
  end.

End PostCard.

(** ** components/PostCard: handlers, tag list and reply sections *)

Module Card.

(** The body of [handleLike], a closure over the [liked] its render
    computed: [if (isLiking) return; setIsLiking(true);
    if (liked) await unlikePost(post.id) else await likePost(post.id);
    setIsLiking(false)].  The result is the outcome of the handler, the
    [isLiking] flag afterwards and the world; there is no [finally], so a
    throw leaves the flag set. *)
Definition handleLikeBody (E : Env) (S : Session) (isLiking liked : bool) (post : Post)
    (w : World) : Outcome unit * bool * World :=
  if isLiking then (Returned tt, isLiking, w)
  else
    match (if liked then unlikePost E S (id post) else likePost E S (id post)) w with
    | (Returned _, w') => (Returned tt, false, w')
    | (Thrown, w') => (Thrown, true, w')
    end.

(** The body of [handleRepost], a closure over [isRepostedPost] and
    [reposted]: unrepost when [isRepostedPost || reposted], else repost;
    [if (result.success && onReply) setTimeout(() => onReply(), 300)];
    [finally { setIsReposting(false) }].  The result is the outcome (whether
    a refresh was scheduled), the [isReposting] flag afterwards and the
    world. *)
Definition handleRepostBody (E : Env) (S : Session)
    (isReposting hasOnReply isRepostedPost reposted : bool) (post : Post)
    (w : World) : Outcome bool * bool * World :=
  if isReposting then (Returned false, isReposting, w)
  else
    match (if isRepostedPost || reposted
           then unrepost E S (id post)
           else repost E S (id post)) w with
    | (Returned result, w') => (Returned (success result && hasOnReply), false, w')
    | (Thrown, w') => (Thrown, false, w')
    end.


Definition handleRepost (E : Env) (S : Session) (pathname : string)
    (isReposting hasOnReply : bool) (post : Post)
    (w : World) : Outcome bool * bool * World :=
  match PostCard.isRepostedPost S pathname post, isReposted S post with
  | Returned isRepostedPost, Returned reposted =>
      handleRepostBody E S isReposting hasOnReply isRepostedPost reposted post w
  | _, _ => (Thrown, isReposting, w)
  end.

Record Tag : Type := mkTag { name : string; slug : string }.

(** [setPostTags((prev) => prev.some(t => t.slug === tag.slug) ? prev : [...prev, tag])] *)
Definition onTag (prev : list Tag) (tag : Tag) : list Tag :=
  if existsb (fun t => String.eqb (slug t) (slug tag)) prev then prev
  else prev ++ [tag].

Definition tagsAfter (delivered : list Tag) : list Tag := fold_left onTag delivered [].

(** A post with the replies [useReplies] returns for it, once loaded. *)
Inductive Thread : Type :=
  | ThreadNode (postId : string) (replies : list Thread).

Definition threadId (t : Thread) : string :=
  match t with ThreadNode p _ => p end.

Definition threadReplies (t : Thread) : list Thread :=
  match t with ThreadNode _ rs => rs end.

(** The ids of the [PostCard]s rendered, in document order.  A [PostCard]
    renders its post and [<RepliesSection maxDepth={3} currentDepth={0}>];
    a [RepliesSection] renders, for each reply, a [PostCard] and, when
    [currentDepth < maxDepth], a nested section at [currentDepth + 1]. *)
Fixpoint renderCard (t : Thread) : list string :=
  match t with
  | ThreadNode p rs =>
      p :: flat_map (fun r => renderCard r ++
                              (if Nat.ltb 0 3 then renderSection 3 1 r else [])) rs
  end
with renderSection (maxDepth currentDepth : nat) (t : Thread) : list string :=
  match t with
  | ThreadNode _ rs =>
      flat_map (fun r => renderCard r ++
                         (if Nat.ltb currentDepth maxDepth
                          then renderSection maxDepth (Datatypes.S currentDepth) r
                          else [])) rs
  end.

(** All post ids of a thread. *)
Fixpoint threadIds (t : Thread) : list string :=
  match t with
  | ThreadNode p rs => p :: flat_map threadIds rs
  end.

End Card.

(** ** Notions used to state the properties *)

(** The key under which [likePost], [unlikePost], [isLiked] and [isReposted]
    act: [getCurrentUserPub(gun)], else [gun.user().is.pub]; none when the
    session has no [gun], is not logged in, or a lookup made on the way
    throws. *)
Definition identityPub (S : Session) : option string :=
  if negb (hasGun S) || negb (isLoggedIn S) then None
  else if pubThrows S then None
  else match truthyStr (getCurrentUserPub S) with
       | Some p => Some p
       | None => if userThrows S then None else userIsPub (user S)
       end.

(** The key [repost] and [unrepost] go on with: none when one of their two
    lookups throws or the guard after them fails. *)
Definition resolveRepostPub (S : Session) : option string :=
  if userThrows S || pubThrows S then None
  else resolvePub (user S) (getCurrentUserPub S).

(** Both identity lookups return. *)
Definition lookupsReturn (S : Session) : Prop :=
  pubThrows S = false ∧ userThrows S = false.


(** A key that no member of [Object.prototype] is named by. *)
Definition ownKeyOnly (k : string) : Prop := inherited k = JUndefined.

Inductive Action : Type := Like | Unlike | Repost | Unrepost.

Definition perform (E : Env) (S : Session) (a : Action) (postId : string) : M ActionResult :=
  match a with
  | Like => likePost E S postId
  | Unlike => unlikePost E S postId
  | Repost => repost E S postId
  | Unrepost => unrepost E S postId
  end.




Definition writePath (wr : Write) : Path :=
  match wr with
  | WGun p _ => p
  | WUser p _ => p
  end.

(** Reading up to tombstones: a path overwritten with [null] reads as
    absent. *)
Definition live (s : Store) (p : Path) : option JsVal :=
  match s !! p with
  | Some JNull => None
  | o => o
  end.

(** The post as PostDetail shows it over graph [g]. *)
Definition shownPost (g : Store) (postId : string) (payload : list (string * JsVal))
    (nowMs : Z) : Post :=
  PostDetail.toPost g postId payload nowMs.

(** The count as the specification words it: the entries with a truthy
    value. *)
Definition truthyEntries (r : JsRecord) : nat :=
  size (filter (fun kv : string * JsVal => truthy (snd kv) = true) r).

(** The entries with a truthy value whose key does not start with ['_']. *)
Definition countedEntries (r : JsRecord) : nat :=
  size (filter (fun kv : string * JsVal =>
                  truthy (snd kv) = true ∧ startsWithUnderscore (fst kv) = false) r).

(** A repost marker: [true], or an object without a truthy ['_'] field. *)
Definition liveRepostEntry (v : JsVal) : Prop :=
  v = JBool true ∨ ∃ f, v = JObj f ∧ truthy (objGet f "_") = false.

(** Cumulative time of a trace. *)
Definition duration (trace : list (N * PostDetail.Event)) : N :=
  fold_right (fun tev acc => (fst tev + acc)%N) 0%N trace.

Definition isValidDelivery (ev : PostDetail.Event) : bool :=
  match ev with
  | PostDetail.Delivered _ v => PostDetail.validSoul v
  | _ => false
  end.

Definition isCleanup (ev : PostDetail.Event) : bool :=
  match ev with
  | PostDetail.Cleanup => true
  | _ => false
  end.

(** ** Predicates for reasoning about the effectful code *)

(** Whether an entry [r[k] = v] is counted by [countKeys]. *)
Definition counts (k : string) (v : JsVal) : bool :=
  truthy v && negb (startsWithUnderscore k).

(** [ensures m w Q]: running [m] from [w] ends in an outcome and a world
    related by [Q]. *)
Definition ensures {A} (m : M A) (w : World) (Q : Outcome A → World → Prop) : Prop :=
  Q (fst (m w)) (snd (m w)).

Definition bumped (w : World) : World :=
  mkWorld (graph w) (userGraph w) (writes w) (ticks w) (Datatypes.S (calls w)).

(** A computation that only reads: stores and write log are untouched
    whatever the outcome. *)
Definition readOnly {A} (m : M A) : Prop :=
  ∀ w, graph (snd (m w)) = graph w ∧ userGraph (snd (m w)) = userGraph w
       ∧ writes (snd (m w)) = writes w.

(** Every value [m] can return satisfies [Q]. *)
Definition returnsOnly {A} (Q : A → Prop) (m : M A) : Prop :=
  ∀ w a w', m w = (Returned a, w') → Q a.

(** Every write [m] issues, on any outcome, satisfies [P]. *)
Definition emits {A} (P : Write → Prop) (m : M A) : Prop :=
  ∀ w, ∃ new, writes (snd (m w)) = writes w ++ new ∧ Forall P new.

(** The result shape [{success: true}] or [{success: false, error}]. *)
Definition shaped (r : ActionResult) : Prop :=
  (success r = true ∧ error r = None) ∨ (success r = false ∧ is_Some (error r)).

Definition returnsShaped (o : Outcome ActionResult) (w : World) : Prop :=
  ∃ r, o = Returned r ∧ shaped r.

(** A result, or a throw of an identity lookup with the world as it was. *)
Definition returnsOrEscapes (S : Session) (w : World)
    (o : Outcome ActionResult) (w' : World) : Prop :=
  returnsShaped o w' ∨
  (o = Thrown ∧ w' = w ∧ (pubThrows S = true ∨ userThrows S = true)).

Definition onSuccess (P : World → Prop) (o : Outcome ActionResult) (w1 : World) : Prop :=
  ∀ r, o = Returned r → success r = true → P w1.

(** The effect of a successful [likePost] ([v = true]) or [unlikePost]
    ([v = null]) by [u]. *)
Definition liked (v : JsVal) (u postId : string) (w w1 : World) : Prop :=
  graph w1 = <[mirrorLikesPath postId ++ [u] := v]>
               (<[likesPath postId ++ [u] := v]> (graph w)) ∧
  userGraph w1 = userGraph w ∧
  writes w1 = writes w ++ [WGun (likesPath postId ++ [u]) v;
                           WGun (mirrorLikesPath postId ++ [u]) v].

Definition repostWrites (u postId : string) (ts : JsVal) (t1 t2 : Z) : list Write :=
  [WGun (repostsPath postId ++ [u]) (JObj [("timestamp", JNum t1)]);
   WGun (mirrorRepostsPath postId ++ [u]) (JObj [("timestamp", JNum t2)]);
   WUser (ownPostsPath postId) (repostEntry postId ts);
   WGun (userIndexPath u postId) (repostEntry postId ts)].

Definition reposted (S : Session) (postId : string) (w w1 : World) : Prop :=
  ∃ u ts t1 t2,
    resolveRepostPub S = Some u ∧
    graph w1 = <[userIndexPath u postId := repostEntry postId ts]>
                 (<[mirrorRepostsPath postId ++ [u] := JObj [("timestamp", JNum t2)]]>
                    (<[repostsPath postId ++ [u] := JObj [("timestamp", JNum t1)]]> (graph w))) ∧
    userGraph w1 = <[ownPostsPath postId := repostEntry postId ts]> (userGraph w) ∧
    writes w1 = writes w ++ repostWrites u postId ts t1 t2.

Definition unrepostWrites (u postId : string) : list Write :=
  [WGun (repostsPath postId ++ [u]) JNull;
   WGun (mirrorRepostsPath postId ++ [u]) JNull;
   WUser (ownPostsPath postId) JNull;
   WGun (userIndexPath u postId) JNull].

Definition unreposted (S : Session) (postId : string) (w w1 : World) : Prop :=
  ∃ u,
    resolveRepostPub S = Some u ∧
    graph w1 = <[userIndexPath u postId := JNull]>
                 (<[mirrorRepostsPath postId ++ [u] := JNull]>
                    (<[repostsPath postId ++ [u] := JNull]> (graph w))) ∧
    userGraph w1 = <[ownPostsPath postId := JNull]> (userGraph w) ∧
    writes w1 = writes w ++ unrepostWrites u postId.

(** The same write target, overwritten with [null]. *)
Definition tombstone (wr : Write) : Write :=
  match wr with
  | WGun p _ => WGun p JNull
  | WUser p _ => WUser p JNull
  end.

(** *** Invariants of the PostDetail lookup *)

Definition postNotFound : string := "Post not found".
Definition postDataNotFound : string := "Post data not found".

Definition noCleanup (tev : N * PostDetail.Event) : Prop := isCleanup (snd tev) = false.

Definition silentEvent (tev : N * PostDetail.Event) : Prop :=
  isCleanup (snd tev) = false ∧ isValidDelivery (snd tev) = false.

(** The souls read so far: none before [found], exactly one after. *)
Definition loadedOnce (st : PostDetail.State) : Prop :=
  (PostDetail.found st = false ∧ PostDetail.loaded st = []) ∨
  (PostDetail.found st = true ∧ length (PostDetail.loaded st) = 1).

(** 'Post not found' is present only once the bound has elapsed. *)
Definition lateOnly (st : PostDetail.State) : Prop :=
  PostDetail.error st = Some postNotFound → (PostDetail.timeoutMs ≤ PostDetail.elapsed st)%N.

(** A soul was accepted and 'Post not found' is not shown. *)
Definition foundQuiet (st : PostDetail.State) : Prop :=
  PostDetail.found st = true ∧ PostDetail.error st ≠ Some postNotFound.

(** Nothing was delivered: the timer is still pending, or it fired and
    reported. *)
Definition silent (st : PostDetail.State) : Prop :=
  PostDetail.found st = false ∧ PostDetail.pendingReads st = 0 ∧
  PostDetail.enrichDue st = None ∧ PostDetail.authorAsked st = false ∧
  PostDetail.listening st = true ∧
  ((PostDetail.timeoutArmed st = true ∧ (PostDetail.elapsed st < PostDetail.timeoutMs)%N ∧
    PostDetail.error st = None ∧ PostDetail.loading st = true) ∨
   (PostDetail.timeoutArmed st = false ∧ (PostDetail.timeoutMs ≤ PostDetail.elapsed st)%N ∧
    PostDetail.error st = Some postNotFound ∧ PostDetail.loading st = false)).

(** *** Invariant of the user feed *)

Definition feedOk (st : UserPosts.State) : Prop :=
  NoDup (UserPosts.postsMap st).*1 ∧
  Forall (λ kv, id (snd kv) = fst kv) (UserPosts.postsMap st) ∧
  UserPosts.posts st ≡ₚ UserPosts.mapValues (UserPosts.postsMap st).

(** ** Concrete sessions and worlds *)

(** A clock that advances by 1 ms per reading; no graph call throws. *)
Definition quietEnv : Env := mkEnv (λ n, 1700000000000 + Z.of_nat n)%Z (λ _, false).

(** A logged-in session whose public key is [key]. *)
Definition sessionOf (key : string) : Session :=
  mkSession true true (Some key) (Some (mkGunUser (Some (mkUserIs key)))) false (Some key)
            false false.


Definition emptyWorld : World := mkWorld ∅ ∅ [] 0 0.

Definition payloadP1 : JsVal :=
  JObj [("authorPub", JStr "alice"); ("text", JStr "hello"); ("timestamp", JNum 5)].

(** alice's own post p1, stored and indexed under her key. *)
Definition ownPostWorld : World :=
  mkWorld (<[userIndexPath "alice" "p1" := JObj [("id", JStr "p1"); ("timestamp", JNum 5)]]>
             (<[[appName; "posts"; "p1"] := payloadP1]> ∅))
          ∅ [] 0 0.

(** A post p1 by bob that alice has not reposted. *)
Definition otherPostWorld : World :=
  mkWorld (<[[appName; "posts"; "p1"] :=
               JObj [("authorPub", JStr "bob"); ("text", JStr "hi"); ("timestamp", JNum 7)]]> ∅)
          ∅ [] 0 0.

(** A post whose interaction records hold one entry under the key ["_k"]. *)
Definition underscorePost : Post :=
  mkPost "p1" "bob" "hi" 7 (Some {["_k" := JBool true]}) (Some {["_k" := JBool true]}) None None.

Definition bobPost : Post := mkPost "p1" "bob" "hi" 7 (Some ∅) (Some ∅) None None.

(** Every graph call throws. *)
Definition failingEnv : Env := mkEnv (λ n, 1700000000000 + Z.of_nat n)%Z (λ _, true).

(** The session of [key] at a moment when [gun.user()] throws, and at one
    when [getCurrentUserPub(gun)] does. *)
Definition userLookupThrows (key : string) : Session :=
  mkSession true true (Some key) (Some (mkGunUser (Some (mkUserIs key)))) false (Some key)
            false true.

Definition pubLookupThrows (key : string) : Session :=
  mkSession true true (Some key) (Some (mkGunUser (Some (mkUserIs key)))) false (Some key)
            true false.

(** bob's post p1 whose repost record holds, under alice's key, the
    [{timestamp}] entry of a repost as GunDB delivers it, with its metadata. *)
Definition repostedAsDelivered : Post :=
  mkPost "p1" "bob" "hi" 7 (Some ∅)
         (Some {["alice" := delivered (repostsPath "p1" ++ ["alice"])
                              (JObj [("timestamp", JNum 1700000000000)])]})
         None None.

(** ** Notions for the further properties *)

(** The effect of one logged write on the public graph and on the user's
    own graph. *)
Definition applyGun (g : Store) (wr : Write) : Store :=
  match wr with
  | WGun p v => <[p := v]> g
  | WUser _ _ => g
  end.

Definition applyUser (g : Store) (wr : Write) : Store :=
  match wr with
  | WUser p v => <[p := v]> g
  | WGun _ _ => g
  end.

(** The write targets of an action, in program order (values erased). *)
Definition actionTargets (a : Action) (u postId : string) : list Write :=
  match a with
  | Like | Unlike =>
      [WGun (likesPath postId ++ [u]) JNull; WGun (mirrorLikesPath postId ++ [u]) JNull]
  | Repost | Unrepost => unrepostWrites u postId
  end.

(** [m] logs its writes faithfully; their targets are [full] when [m]
    returns and a prefix of [full] when it throws. *)
Definition logsExactly {A} (full : list Write) (m : M A) : Prop :=
  ∀ w, ∃ new,
    writes (snd (m w)) = writes w ++ new ∧
    graph (snd (m w)) = foldl applyGun (graph w) new ∧
    userGraph (snd (m w)) = foldl applyUser (userGraph w) new ∧
    match fst (m w) with
    | Returned _ => tombstone <$> new = full
    | Thrown => (tombstone <$> new) `prefix_of` full
    end.

(** As [logsExactly], but the targets are a prefix of [full] on any outcome. *)
Definition logsPrefix {A} (full : list Write) (m : M A) : Prop :=
  ∀ w, ∃ new,
    writes (snd (m w)) = writes w ++ new ∧
    graph (snd (m w)) = foldl applyGun (graph w) new ∧
    userGraph (snd (m w)) = foldl applyUser (userGraph w) new ∧
    (tombstone <$> new) `prefix_of` full.

(** What an action [a] on [postId] did between [w] and [w']. *)
Definition logged (S : Session) (a : Action) (postId : string) (w w' : World) : Prop :=
  ∃ new,
    writes w' = writes w ++ new ∧
    graph w' = foldl applyGun (graph w) new ∧
    userGraph w' = foldl applyUser (userGraph w) new ∧
    (new = [] ∨ ∃ u, identityPub S = Some u ∧
                     (tombstone <$> new) `prefix_of` actionTargets a u postId).

(** No graph call throws. *)
Definition quiet (E : Env) : Prop := ∀ n, throws E n = false.

(** [a2] overwrites every target of [a1] with a value that does not depend
    on the clock. *)
Definition overrides (a2 a1 : Action) : bool :=
  match a2, a1 with
  | (Like | Unlike), (Like | Unlike) => true
  | Unrepost, (Repost | Unrepost) => true
  | _, _ => false
  end.

(** [data && typeof data === 'object'], then [{ _, ...post } = data]. *)
Definition payloadOf (data : JsVal) : option (list (string * JsVal)) :=
  match data with
  | JObj f => Some (stripMeta f)
  | _ => None
  end.

(** What the two lookups of [repost] resolve to on graph [g]: the payload
    behind the [#posts] pointer when [SEA] is present, else the node at
    [{app}/posts/{postId}]. *)
Definition resolvePost (S : Session) (g : Store) (postId : string)
    : option (list (string * JsVal)) :=
  let fromHash :=
    if SEA S then
      match default JUndefined (g !! ["#posts"; postId]) with
      | JStr postSoul =>
          if String.eqb postSoul "" then None
          else payloadOf (default JUndefined (g !! [postSoul]))
      | _ => None
      end
    else None in
  match fromHash with
  | Some post => Some post
  | None => payloadOf (default JUndefined (g !! [appName; "posts"; postId]))
  end.

(** The writes of a successful like, unlike or unrepost. *)
Definition plainWrites (a : Action) (u postId : string) : list Write :=
  match a with
  | Like => [WGun (likesPath postId ++ [u]) (JBool true);
             WGun (mirrorLikesPath postId ++ [u]) (JBool true)]
  | Unlike => [WGun (likesPath postId ++ [u]) JNull;
               WGun (mirrorLikesPath postId ++ [u]) JNull]
  | Repost | Unrepost => unrepostWrites u postId
  end.

(** The action returned [r] in a world satisfying [P]. *)
Definition endsWith (r : ActionResult) (P : World → Prop)
    (o : Outcome ActionResult) (w' : World) : Prop :=
  o = Returned r ∧ P w'.

(** The timestamp copied into the index entry, and how many clock readings
    that takes. *)
Definition indexTimestamp (E : Env) (post : list (string * JsVal)) (tick : nat) : JsVal :=
  if truthy (objGet post "timestamp") then objGet post "timestamp"
  else JNum (now E tick).

Definition clockReads (post : list (string * JsVal)) : nat :=
  if truthy (objGet post "timestamp") then 0 else 1.

(** The tag list shown for the tags [delivered]. *)
Definition tagsOk (delivered tags : list Card.Tag) : Prop :=
  NoDup (Card.slug <$> tags) ∧
  (∀ s, s ∈ Card.slug <$> tags ↔ s ∈ Card.slug <$> delivered) ∧
  (∀ t, t ∈ tags → ∃ pre suf, delivered = pre ++ t :: suf ∧ Card.slug t ∉ Card.slug <$> pre).

(** A delivery the getUserPosts callback processes: not null, with an id. *)
Definition feedAccepts (d : option UserPosts.PostWithAuthor * Z) : bool :=
  match fst d with
  | Some p => negb (String.eqb (UserPosts.pwa_id p) "")
  | None => false
  end.

(** [postsMap.get(k)] *)
Fixpoint mapGet (k : string) (m : list (string * Post)) : option Post :=
  match m with
  | [] => None
  | (k', v) :: rest => if String.eqb k' k then Some v else mapGet k rest
  end.

(** Newest first: no later element has a larger timestamp. *)
Definition newestFirst (l : list Post) : Prop :=
  StronglySorted (λ a b, (timestamp b ≤ timestamp a)%Z) l.

(** The feed shows the sorted values of its map. *)
Definition feedShown (st : UserPosts.State) : Prop :=
  UserPosts.posts st = UserPosts.sortNewestFirst (UserPosts.mapValues (UserPosts.postsMap st)).

(** An error is on screen: it is set and the spinner is off. *)
Definition errored (st : PostDetail.State) : Prop :=
  is_Some (PostDetail.error st) ∧ PostDetail.loading st = false.

(** Events other than the author callback and a payload read that yields no
    object. *)
Definition benign (tev : N * PostDetail.Event) : Prop :=
  match snd tev with
  | PostDetail.AuthorProfile => False
  | PostDetail.PostData (JObj _) => True
  | PostDetail.PostData _ => False
  | _ => True
  end.

(** A soul was accepted and the spinner is still on. *)
Definition spinning (st : PostDetail.State) : Prop :=
  PostDetail.found st = true ∧ PostDetail.loading st = true.

(** The post is the requested one and carries the records of the
    interaction loader. *)
Definition requested (G : Store) (postId : string) (p : Post) : Prop :=
  id p = postId ∧ likes p = Some (loadLikes G postId) ∧
  reposts p = Some (loadReposts G postId).

(** What a trace contains: an accepted soul, an object payload, an author
    callback. *)
Definition hasSoul (trace : list (N * PostDetail.Event)) : Prop :=
  ∃ dt ch soul, (dt, PostDetail.Delivered ch (JStr soul)) ∈ trace ∧ soul ≠ "".

Definition hasPayload (trace : list (N * PostDetail.Event)) : Prop :=
  ∃ dt f, (dt, PostDetail.PostData (JObj f)) ∈ trace.

Definition hasAuthor (trace : list (N * PostDetail.Event)) : Prop :=
  ∃ dt, (dt, PostDetail.AuthorProfile) ∈ trace.

(** How the state of the lookup depends on the events seen. *)
Definition grounded (G : Store) (postId : string)
    (trace : list (N * PostDetail.Event)) (st : PostDetail.State) : Prop :=
  (PostDetail.pendingReads st ≠ 0%nat → PostDetail.found st = true) ∧
  (PostDetail.found st = true → hasSoul trace) ∧
  (∀ p, PostDetail.draft st = Some p →
        hasSoul trace ∧ hasPayload trace ∧ requested G postId p) ∧
  (∀ p, PostDetail.post st = Some p →
        hasSoul trace ∧ hasPayload trace ∧ hasAuthor trace ∧ requested G postId p).

(** After the disposer ran: no listener, no pending timeout. *)
Definition disposed (souls : list string) (err : option string)
    (st : PostDetail.State) : Prop :=
  PostDetail.listening st = false ∧ PostDetail.timeoutArmed st = false ∧
  PostDetail.loaded st = souls ∧
  (PostDetail.error st = Some postNotFound → err = Some postNotFound).

(** ** Further concrete inputs *)

(** A session whose key is known to [getCurrentUserPub] only:
    [gun.user().is] is not set. *)
Definition contextOnly (key : string) : Session :=
  mkSession true true (Some key) (Some (mkGunUser None)) false (Some key) false false.

(** Two deliveries of the same post id with different text. *)
Definition helloV1 : UserPosts.PostWithAuthor :=
  UserPosts.mkPWA "p1" "alice" "" "hello" "" 5 None None None None.

Definition helloV2 : UserPosts.PostWithAuthor :=
  UserPosts.mkPWA "p1" "alice" "" "hello again" "" 5 None None None None.

(** bob's post p1 with a like by alice. *)
Definition likedByAlice : Post :=
  mkPost "p1" "bob" "hi" 7 (Some {["alice" := JBool true]}) (Some ∅) None None.

(** A soul delivered 10 ms after the lookup started. *)
Definition soulEarly : list (N * PostDetail.Event) :=
  [(10%N, PostDetail.Delivered PostDetail.HashTable (JStr "soul"))].

(** A soul delivered when the 8 s bound has just elapsed. *)
Definition soulLate : list (N * PostDetail.Event) :=
  [(8000%N, PostDetail.Delivered PostDetail.HashTable (JStr "soul"))].

(** The payload is read after 10 ms and the author arrives 100 ms later. *)
Definition payloadThenAuthor : list (N * PostDetail.Event) :=
  [(10%N, PostDetail.PostData payloadP1); (100%N, PostDetail.AuthorProfile)].

(** The payload is read, then the component unmounts; no author callback. *)
Definition payloadThenUnmount : list (N * PostDetail.Event) :=
  [(10%N, PostDetail.PostData payloadP1); (9000%N, PostDetail.Cleanup)].

(** * Lemmas *)

(** ** Children of a path *)

Lemma childKey_spec p q k : childKey p q = Some k ↔ q = p ++ [k].
Proof.
  revert q. induction p as [|a p IH]; intros q; simpl.
  - destruct q as [|b [|c q]]; split; intros H; simplify_eq; done.
  - destruct q as [|b q]; [split; intros H; simplify_eq|].
    destruct (String.eqb_spec a b) as [->|Hne].
    + rewrite IH. split; intros H; simplify_eq; done.
    + split; intros H; simplify_eq.
Qed.

Lemma lookup_children (s : Store) p k :
  children s p !! k = delivered (p ++ [k]) <$> s !! (p ++ [k]).
Proof.
  unfold children.
  apply (map_fold_weak_ind (fun (acc : JsRecord) (m : Store) =>
                              acc !! k = delivered (p ++ [k]) <$> m !! (p ++ [k]))).
  - by rewrite !lookup_empty.
  - intros q v m acc Hq IH.
    destruct (childKey p q) as [k'|] eqn:Hck.
    + apply childKey_spec in Hck as ->.
      destruct (decide (k' = k)) as [->|Hne].
      * by rewrite !lookup_insert_eq.
      * rewrite !lookup_insert_ne; [done| |done].
        intros H. apply app_inv_head in H. congruence.
    + rewrite lookup_insert_ne; [done|].
      intros ->. assert (childKey p (p ++ [k]) = Some k) by by apply childKey_spec.
      congruence.
Qed.

(** ** Own and inherited properties *)

Lemma jsGet_own (r : JsRecord) k v : r !! k = Some v → jsGet r k = v.
Proof. unfold jsGet. by intros ->. Qed.

Lemma jsGet_insert (r : JsRecord) k v : jsGet (<[k := v]> r) k = v.
Proof. apply jsGet_own, lookup_insert_eq. Qed.

Lemma jsGet_insert_ne (r : JsRecord) k k' v : k ≠ k' → jsGet (<[k := v]> r) k' = jsGet r k'.
Proof. intros Hne. unfold jsGet. by rewrite lookup_insert_ne. Qed.

Lemma jsGet_missing (r : JsRecord) k : r !! k = None → ownKeyOnly k → jsGet r k = JUndefined.
Proof. unfold jsGet, ownKeyOnly. by intros -> ->. Qed.

Lemma inherited_underscore k : inherited k ≠ JUndefined → inherited k ≠ JFun → k = "__proto__".
Proof.
  unfold inherited. destruct (String.eqb_spec k "__proto__"); [done|].
  by destruct (existsb (String.eqb k) prototypeMethods).
Qed.

Lemma payloadOf_delivered q v : payloadOf (delivered q v) = payloadOf v.
Proof. by destruct v. Qed.

(** ** Counting the entries of a record *)

Lemma filter_length_perm {A} (f : A → bool) (l l' : list A) :
  l ≡ₚ l' → length (List.filter f l) = length (List.filter f l').
Proof.
  induction 1 as [|x l l' _ IH|x y l|l l' l'' _ IH1 _ IH2]; simpl.
  - done.
  - destruct (f x); simpl; congruence.
  - destruct (f x), (f y); simpl; done.
  - congruence.
Qed.

Lemma countKeys_empty : countKeys ∅ = 0.
Proof. unfold countKeys, objectKeys. by rewrite map_to_list_empty. Qed.

Lemma countKeys_insert_fresh (r : JsRecord) k v :
  r !! k = None →
  countKeys (<[k := v]> r) = (if counts k v then 1 else 0) + countKeys r.
Proof.
  intros Hk. unfold countKeys, objectKeys.
  rewrite (filter_length_perm _ _ (k :: (map_to_list r).*1)).
  2:{ rewrite (map_to_list_insert r k v Hk). done. }
  simpl. rewrite jsGet_insert.
  assert (List.filter (λ key, truthy (jsGet (<[k:=v]> r) key) && negb (startsWithUnderscore key))
            (map_to_list r).*1
          = List.filter (λ key, truthy (jsGet r key) && negb (startsWithUnderscore key))
            (map_to_list r).*1) as ->.
  { apply List.filter_ext_in. intros key Hin.
    assert (key ≠ k) as Hne.
    { intros ->. apply list_elem_of_In, list_elem_of_fmap in Hin as [[k' v'] [-> Hin]].
      apply elem_of_map_to_list in Hin. simpl in *. congruence. }
    by rewrite jsGet_insert_ne. }
  unfold counts. destruct (truthy v && negb (startsWithUnderscore k)); done.
Qed.

Lemma countKeys_insert (r : JsRecord) k v :
  countKeys (<[k := v]> r) = (if counts k v then 1 else 0) + countKeys (delete k r).
Proof.
  rewrite <- insert_delete_eq. apply countKeys_insert_fresh, lookup_delete_eq.
Qed.

Lemma countKeys_countedEntries (r : JsRecord) : countKeys r = countedEntries r.
Proof.
  induction r as [|k v r Hk IH] using map_ind.
  - rewrite countKeys_empty. unfold countedEntries. by rewrite map_filter_empty, map_size_empty.
  - rewrite countKeys_insert_fresh by done. rewrite IH.
    unfold countedEntries. rewrite map_filter_insert. simpl.
    unfold counts. case_decide as Hd.
    + destruct Hd as [-> ->]. simpl.
      rewrite map_size_insert_None; [done|].
      apply map_lookup_filter_None. by left.
    + rewrite delete_id by done.
      destruct (truthy v), (startsWithUnderscore k); simpl; try done.
      exfalso. by apply Hd.
Qed.

(** ** Rules for the effect monad *)

Section Rules.
Context (E : Env).

Lemma ensures_elim {A} (m : M A) w Q o w' : ensures m w Q → m w = (o, w') → Q o w'.
Proof. unfold ensures. intros H Heq. by rewrite Heq in H. Qed.

Lemma ensures_ret {A} (a : A) w (Q : Outcome A → World → Prop) :
  Q (Returned a) w → ensures (mret a) w Q.
Proof. done. Qed.

Lemma ensures_bind {A B} (m : M A) (k : A → M B) w (Q : Outcome B → World → Prop) :
  ensures m w (λ o w1, match o with
                    | Returned a => ensures (k a) w1 Q
                    | Thrown => Q Thrown w1
                    end) →
  ensures (m ≫= k) w Q.
Proof.
  unfold ensures, mbind, M_bind. destruct (m w) as [[a|] w1]; simpl; done.
Qed.

Lemma ensures_try {A} (body handler : M A) w (Q : Outcome A → World → Prop) :
  ensures body w (λ o w1, match o with
                       | Returned a => Q (Returned a) w1
                       | Thrown => ensures handler w1 Q
                       end) →
  ensures (tryCatch body handler) w Q.
Proof.
  unfold ensures, tryCatch. destruct (body w) as [[a|] w1]; simpl; done.
Qed.

Lemma ensures_put p v w (Q : Outcome unit → World → Prop) :
  Q Thrown (bumped w) →
  Q (Returned tt) (mkWorld (<[p := v]> (graph w)) (userGraph w)
                           (writes w ++ [WGun p v]) (ticks w) (Datatypes.S (calls w))) →
  ensures (put E p v) w Q.
Proof.
  unfold ensures, put, gunCall. destruct (throws E (calls w)); simpl; done.
Qed.

Lemma ensures_userPut p v w (Q : Outcome unit → World → Prop) :
  Q Thrown (bumped w) →
  Q (Returned tt) (mkWorld (graph w) (<[p := v]> (userGraph w))
                           (writes w ++ [WUser p v]) (ticks w) (Datatypes.S (calls w))) →
  ensures (userPut E p v) w Q.
Proof.
  unfold ensures, userPut, gunCall. destruct (throws E (calls w)); simpl; done.
Qed.

Lemma ensures_once p w (Q : Outcome JsVal → World → Prop) :
  Q Thrown (bumped w) →
  Q (Returned (delivered p (default JUndefined (graph w !! p)))) (bumped w) →
  ensures (once E p) w Q.
Proof.
  unfold ensures, once, gunCall. destruct (throws E (calls w)); simpl; done.
Qed.

Lemma ensures_dateNow w (Q : Outcome Z → World → Prop) :
  Q (Returned (now E (ticks w)))
    (mkWorld (graph w) (userGraph w) (writes w) (Datatypes.S (ticks w)) (calls w)) →
  ensures (dateNow E) w Q.
Proof. done. Qed.

Lemma readOnly_ret {A} (a : A) : readOnly (mret a).
Proof. done. Qed.

Lemma readOnly_bind {A B} (m : M A) (k : A → M B) :
  readOnly m → (∀ a, readOnly (k a)) → readOnly (m ≫= k).
Proof.
  intros Hm Hk w. specialize (Hm w). unfold mbind, M_bind.
  destruct (m w) as [[a|] w1]; simpl in *; [|done].
  destruct (Hk a w1) as (-> & -> & ->). done.
Qed.

Lemma readOnly_once p : readOnly (once E p).
Proof. intros w. unfold once, gunCall. destruct (throws E (calls w)); done. Qed.

Lemma readOnly_dateNow : readOnly (dateNow E).
Proof. done. Qed.

Lemma readOnly_readPost p : readOnly (readPost E p).
Proof. apply readOnly_bind; [apply readOnly_once|intros; apply readOnly_ret]. Qed.

Lemma ensures_readOnly {A} (m : M A) w (Q : Outcome A → World → Prop) :
  readOnly m →
  (∀ o w1, graph w1 = graph w → userGraph w1 = userGraph w → writes w1 = writes w → Q o w1) →
  ensures m w Q.
Proof. intros Hm HQ. destruct (Hm w) as (? & ? & ?). by apply HQ. Qed.

Lemma ensures_throw {A} w (Q : Outcome A → World → Prop) : Q Thrown w → ensures throw w Q.
Proof. done. Qed.
End Rules.

(** The identity lookups, as the first steps of an action. *)
Lemma bind_callPub {A} S (k : option string → M A) :
  (callPub S ≫= k) = if pubThrows S then throw else k (getCurrentUserPub S).
Proof. unfold callPub. by destruct (pubThrows S). Qed.

Lemma bind_callUser {A} S (k : option GunUser → M A) :
  (callUser S ≫= k) = if userThrows S then throw else k (user S).
Proof. unfold callUser. by destruct (userThrows S). Qed.

Lemma resolveRepostPub_returns S :
  userThrows S = false → pubThrows S = false →
  resolveRepostPub S = resolvePub (user S) (getCurrentUserPub S).
Proof. unfold resolveRepostPub. by intros -> ->. Qed.

Lemma resolveRepostPub_Some S u :
  resolveRepostPub S = Some u →
  userThrows S = false ∧ pubThrows S = false ∧
  resolvePub (user S) (getCurrentUserPub S) = Some u.
Proof.
  unfold resolveRepostPub. by destruct (userThrows S), (pubThrows S).
Qed.

Ltac read_only :=
  repeat first
    [ apply readOnly_ret | apply readOnly_once | apply readOnly_dateNow
    | apply readOnly_readPost
    | apply readOnly_bind; [|intros ?]
    | match goal with |- readOnly (match ?x with _ => _ end) => destruct x end
    | match goal with |- readOnly (if ?x then _ else _) => destruct x end ].

Ltac fails := first [by intros ? [=] | by intros ? [= <-]].

(** Past the guard and the two lookups of [repost] and [unrepost]. *)
Ltac repost_prelude S Hut Hpt :=
  rewrite (bind_callUser S); destruct (userThrows S) eqn:Hut;
  [|rewrite (bind_callPub S); destruct (pubThrows S) eqn:Hpt].

(** Past the guard and the lookups of [likePost] and [unlikePost]. *)
Ltac like_prelude S Hpt Hut :=
  rewrite (bind_callPub S); destruct (pubThrows S) eqn:Hpt;
  [|destruct (truthyStr (getCurrentUserPub S)) eqn:?;
    [|rewrite (bind_callUser S); destruct (userThrows S) eqn:Hut]].

Lemma repost_ensures E S postId w :
  ensures (repost E S postId) w (onSuccess (reposted S postId w)).
Proof.
  unfold repost.
  destruct (negb (hasGun S) || negb (isLoggedIn S)); [fails|].
  repost_prelude S Hut Hpt; [fails|fails|].
  destruct (resolvePub (user S) (getCurrentUserPub S)) as [u|] eqn:Hu0; [|fails].
  rewrite <- (resolveRepostPub_returns S Hut Hpt) in Hu0.
  apply ensures_try, ensures_bind, ensures_readOnly; [read_only|].
  intros [fromHash|] w2 Hg Hu Hw; [|fails].
  apply ensures_bind, ensures_readOnly; [read_only|].
  intros [[post|]|] w3 Hg3 Hu3 Hw3; try fails.
  apply ensures_bind, ensures_readOnly; [read_only|].
  intros [ts|] w4 Hg4 Hu4 Hw4; [|fails].
  apply ensures_bind, ensures_dateNow, ensures_bind, ensures_put; [fails|].
  apply ensures_bind, ensures_dateNow, ensures_bind, ensures_put; [fails|].
  apply ensures_bind, ensures_userPut; [fails|].
  apply ensures_bind, ensures_put; [fails|].
  intros r' [= <-] _. simpl.
  eexists u, ts, _, _. split; [done|].
  rewrite Hg4, Hu4, Hw4, Hg3, Hu3, Hw3, Hg, Hu, Hw.
  rewrite <- !app_assoc. done.
Qed.

Lemma repost_success E S postId w r w1 :
  repost E S postId w = (Returned r, w1) → success r = true → reposted S postId w w1.
Proof.
  intros Hrun Hok. by eapply (ensures_elim _ _ _ _ _ (repost_ensures E S postId w) Hrun).
Qed.

(** ** Outcomes of the four actions *)

Ltac wp_step :=
  cbv beta iota;
  lazymatch goal with
  | |- ensures (tryCatch _ _) _ _ => apply ensures_try
  | |- ensures (mbind _ _) _ _ => apply ensures_bind
  | |- ensures (mret _) _ _ => apply ensures_ret
  | |- ensures (dateNow _) _ _ => apply ensures_dateNow
  | |- ensures (put _ _ _) _ _ => apply ensures_put
  | |- ensures (userPut _ _ _) _ _ => apply ensures_userPut
  | |- ensures (once _ _) _ _ => apply ensures_once
  | |- ensures (if ?x then _ else _) _ _ => destruct x eqn:?
  | |- ensures (match ?x with _ => _ end) _ _ => destruct x eqn:?
  end.

Ltac wp := unfold readPost; repeat wp_step.

Lemma shaped_succeeded : shaped succeeded.
Proof. by left. Qed.

Lemma shaped_failed msg : shaped (failed msg).
Proof. right. split; [done|by eexists]. Qed.

Lemma returnsOnly_ret {A} (Q : A → Prop) a : Q a → returnsOnly Q (mret a).
Proof. intros HQ w a' w' [= <- _]. done. Qed.

Lemma returnsOnly_bind {A B} (Q : B → Prop) (m : M A) (k : A → M B) :
  (∀ a, returnsOnly Q (k a)) → returnsOnly Q (m ≫= k).
Proof.
  intros Hk w b w'. unfold mbind, M_bind.
  destruct (m w) as [[a|] w1]; [apply Hk|done].
Qed.

Lemma tryCatch_returns (body : M ActionResult) msg w :
  returnsOnly shaped body →
  ensures (tryCatch body (mret (failed msg))) w returnsShaped.
Proof.
  intros Hb. unfold ensures, tryCatch.
  destruct (body w) as [[r|] w1] eqn:Hrun; simpl.
  - exists r. split; [done|]. by eapply Hb.
  - exists (failed msg). split; [done|apply shaped_failed].
Qed.

Ltac shaped_body :=
  repeat first
    [ apply returnsOnly_bind; intros ?
    | apply returnsOnly_ret; first [apply shaped_succeeded | apply shaped_failed]
    | match goal with
      | |- returnsOnly _ (match ?x with _ => _ end) => destruct x
      end ].

Ltac guard_fails := eexists; split; [reflexivity|apply shaped_failed].

Lemma escapes_intro S w : pubThrows S = true ∨ userThrows S = true → returnsOrEscapes S w Thrown w.
Proof. intros H. right. done. Qed.

Lemma returnsOrEscapes_guard S w msg : returnsOrEscapes S w (Returned (failed msg)) w.
Proof. left. eexists. split; [done|apply shaped_failed]. Qed.

Lemma tryCatch_outcome S (body : M ActionResult) msg w :
  returnsOnly shaped body →
  ensures (tryCatch body (mret (failed msg))) w (returnsOrEscapes S w).
Proof. intros Hb. left. by apply tryCatch_returns. Qed.

(** Every outcome of an action is a result, or a throw of an identity
    lookup before anything was done. *)
Lemma perform_outcome E S a postId w :
  ensures (perform E S a postId) w (returnsOrEscapes S w).
Proof.
  destruct a; unfold perform, likePost, unlikePost, repost, unrepost;
    (destruct (negb (hasGun S) || negb (isLoggedIn S)); [apply returnsOrEscapes_guard|]).
  - like_prelude S Hpt Hut;
      [apply escapes_intro; by left|apply tryCatch_outcome; shaped_body
      |apply escapes_intro; by right|].
    destruct (userIsPub (user S)); [|apply returnsOrEscapes_guard].
    apply tryCatch_outcome; shaped_body.
  - like_prelude S Hpt Hut;
      [apply escapes_intro; by left|apply tryCatch_outcome; shaped_body
      |apply escapes_intro; by right|].
    destruct (userIsPub (user S)); [|apply returnsOrEscapes_guard].
    apply tryCatch_outcome; shaped_body.
  - repost_prelude S Hut Hpt;
      [apply escapes_intro; by right|apply escapes_intro; by left|].
    destruct (resolvePub (user S) (getCurrentUserPub S)); [|apply returnsOrEscapes_guard].
    apply tryCatch_outcome; shaped_body.
  - repost_prelude S Hut Hpt;
      [apply escapes_intro; by right|apply escapes_intro; by left|].
    destruct (resolvePub (user S) (getCurrentUserPub S)); [|apply returnsOrEscapes_guard].
    apply tryCatch_outcome; shaped_body.
Qed.

Lemma perform_returns E S a postId w :
  lookupsReturn S → ensures (perform E S a postId) w returnsShaped.
Proof.
  intros [Hp Hu]. destruct (perform_outcome E S a postId w) as [?|(_ & _ & [?|?])];
    [done|congruence|congruence].
Qed.

Lemma likePost_ensures E S postId w :
  ensures (likePost E S postId) w
       (onSuccess (λ w1, ∃ u, identityPub S = Some u ∧ liked (JBool true) u postId w w1)).
Proof.
  unfold likePost, identityPub.
  destruct (negb (hasGun S) || negb (isLoggedIn S)); [fails|].
  like_prelude S Hpt Hut; [fails| |fails|].
  - wp; try fails; intros r _ _; eexists; (split; [done|]);
      repeat split; simpl; by rewrite <- ?app_assoc.
  - destruct (userIsPub (user S)) as [u|]; [|fails].
    wp; try fails; intros r _ _; exists u; (split; [done|]);
      repeat split; simpl; by rewrite <- ?app_assoc.
Qed.

Lemma unlikePost_ensures E S postId w :
  ensures (unlikePost E S postId) w
       (onSuccess (λ w1, ∃ u, identityPub S = Some u ∧ liked JNull u postId w w1)).
Proof.
  unfold unlikePost, identityPub.
  destruct (negb (hasGun S) || negb (isLoggedIn S)); [fails|].
  like_prelude S Hpt Hut; [fails| |fails|].
  - wp; try fails; intros r _ _; eexists; (split; [done|]);
      repeat split; simpl; by rewrite <- ?app_assoc.
  - destruct (userIsPub (user S)) as [u|]; [|fails].
    wp; try fails; intros r _ _; exists u; (split; [done|]);
      repeat split; simpl; by rewrite <- ?app_assoc.
Qed.

Lemma unrepost_ensures E S postId w :
  ensures (unrepost E S postId) w (onSuccess (unreposted S postId w)).
Proof.
  unfold unrepost.
  destruct (negb (hasGun S) || negb (isLoggedIn S)); [fails|].
  repost_prelude S Hut Hpt; [fails|fails|].
  destruct (resolvePub (user S) (getCurrentUserPub S)) as [u|] eqn:Hu; [|fails].
  rewrite <- (resolveRepostPub_returns S Hut Hpt) in Hu.
  wp; try fails. intros r _ _. exists u. split; [done|].
  repeat split; simpl; by rewrite <- ?app_assoc.
Qed.

(** ** Writes issued by the four actions *)

Lemma emits_readOnly {A} P (m : M A) : readOnly m → emits P m.
Proof.
  intros Hm w. destruct (Hm w) as (_ & _ & Hw). exists []. by rewrite app_nil_r.
Qed.

Lemma emits_ret {A} P (a : A) : emits P (mret a).
Proof. apply emits_readOnly, readOnly_ret. Qed.

Lemma emits_throw {A} P : emits P (throw (A := A)).
Proof. intros w. exists []. by rewrite app_nil_r. Qed.

Lemma emits_bind {A B} P (m : M A) (k : A → M B) :
  emits P m → (∀ a, emits P (k a)) → emits P (m ≫= k).
Proof.
  intros Hm Hk w. destruct (Hm w) as (new1 & Hw1 & HP1).
  unfold mbind, M_bind. destruct (m w) as [[a|] w1]; simpl in *; [|by eauto].
  destruct (Hk a w1) as (new2 & Hw2 & HP2).
  exists (new1 ++ new2). rewrite Hw2, Hw1, app_assoc. split; [done|by apply Forall_app].
Qed.

Lemma emits_try {A} P (body handler : M A) :
  emits P body → emits P handler → emits P (tryCatch body handler).
Proof.
  intros Hb Hh w. destruct (Hb w) as (new1 & Hw1 & HP1).
  unfold tryCatch. destruct (body w) as [[a|] w1]; simpl in *; [by eauto|].
  destruct (Hh w1) as (new2 & Hw2 & HP2).
  exists (new1 ++ new2). rewrite Hw2, Hw1, app_assoc. split; [done|by apply Forall_app].
Qed.

Lemma emits_put E (P : Write → Prop) p v : P (WGun p v) → emits P (put E p v).
Proof.
  intros HP w. unfold put, gunCall. destruct (throws E (calls w)); simpl.
  - exists []. by rewrite app_nil_r.
  - exists [WGun p v]. split; [done|by constructor].
Qed.

Lemma emits_userPut E (P : Write → Prop) p v : P (WUser p v) → emits P (userPut E p v).
Proof.
  intros HP w. unfold userPut, gunCall. destruct (throws E (calls w)); simpl.
  - exists []. by rewrite app_nil_r.
  - exists [WUser p v]. split; [done|by constructor].
Qed.

Lemma resolveRepostPub_identity S u :
  negb (hasGun S) || negb (isLoggedIn S) = false →
  resolveRepostPub S = Some u → identityPub S = Some u.
Proof.
  intros Hg (Hut & Hpt & Hu)%resolveRepostPub_Some.
  unfold identityPub. rewrite Hg, Hpt, Hut. revert Hu. unfold resolvePub.
  destruct (truthyStr (getCurrentUserPub S)), (userIsPub (user S)); naive_solver.
Qed.



(** ** The like record across likes and unlikes *)

Lemma loadLikes_lookup (g : Store) postId k :
  loadLikes g postId !! k =
    match g !! (likesPath postId ++ [k]) with
    | Some v => if likeAccepted k (delivered (likesPath postId ++ [k]) v)
                then Some (JBool true) else None
    | None => None
    end.
Proof.
  unfold loadLikes. rewrite map_lookup_imap, lookup_children.
  by destruct (g !! (likesPath postId ++ [k])).
Qed.

(** An object is delivered with its metadata, so neither loader takes it. *)
Lemma hasNoMeta_delivered q v : hasNoMeta (delivered q v) = false.
Proof. by destruct v. Qed.

Lemma likeAccepted_delivered k q v :
  likeAccepted k (delivered q v) = true ↔
  k ≠ "" ∧ startsWithUnderscore k = false ∧ v = JBool true.
Proof.
  unfold likeAccepted. rewrite !andb_true_iff, !negb_true_iff.
  destruct (String.eqb_spec k "") as [->|Hk]; split.
  - by intros [[? _] _].
  - by intros [? _].
  - intros [[_ ?] Hv]. split; [done|]. split; [done|].
    destruct v as [| |[]| | |f|]; simpl in Hv; done.
  - intros (_ & -> & ->). done.
Qed.

Lemma loadReposts_empty (g : Store) postId : loadReposts g postId = ∅.
Proof.
  apply map_eq. intros k. unfold loadReposts.
  rewrite map_lookup_imap, lookup_children, lookup_empty.
  destruct (g !! (repostsPath postId ++ [k])) as [v|]; simpl; [|done].
  unfold repostAccepted. by rewrite hasNoMeta_delivered, andb_false_r.
Qed.








(** ** Reading up to tombstones *)

Lemma live_eq_loadReposts (g g' : Store) postId :
  (∀ p, live g' p = live g p) → loadReposts g' postId = loadReposts g postId.
Proof. intros _. by rewrite !loadReposts_empty. Qed.

Lemma live_insert_null (g : Store) p q :
  live (<[p := JNull]> g) q = if decide (p = q) then None else live g q.
Proof.
  unfold live. rewrite lookup_insert. by case_decide.
Qed.

(** ** Repost markers *)

Lemma repostMarker_live v : repostMarker v = true ↔ liveRepostEntry v.
Proof.
  unfold liveRepostEntry. split.
  - destruct v as [| |[]| | |f|]; simpl; try done; [by left|].
    intros H. right. exists f. split; [done|]. by apply negb_true_iff.
  - intros [->|(f & -> & Hf)]; simpl; [done|]. by rewrite Hf.
Qed.

(** [isLiked] and [isReposted] return exactly when the lookups on their way
    do; the value is read under the identity key. *)
Lemma isLiked_cases S p :
  match identityPub S with
  | Some u => isLiked S p = Returned (match likes p with
                                      | Some r => truthy (jsGet r u)
                                      | None => false
                                      end)
  | None => isLiked S p = Returned false ∨ isLiked S p = Thrown
  end.
Proof.
  unfold isLiked, identityPub.
  destruct (negb (hasGun S) || negb (isLoggedIn S)); [by left|].
  destruct (pubThrows S); [by right|].
  destruct (truthyStr (getCurrentUserPub S)) as [u|]; [by destruct (likes p)|].
  destruct (userThrows S); [by right|].
  destruct (userIsPub (user S)) as [u|]; [done|by left].
Qed.

Lemma isReposted_cases S p :
  match identityPub S with
  | Some u => isReposted S p = Returned (match reposts p with
                                         | Some r => repostMarker (jsGet r u)
                                         | None => false
                                         end)
  | None => isReposted S p = Returned false ∨ isReposted S p = Thrown
  end.
Proof.
  unfold isReposted, identityPub.
  destruct (negb (hasGun S) || negb (isLoggedIn S)); [by left|].
  destruct (pubThrows S); [by right|].
  destruct (truthyStr (getCurrentUserPub S)) as [u|]; [by destruct (reposts p)|].
  destruct (userThrows S); [by right|].
  destruct (userIsPub (user S)) as [u|]; [done|by left].
Qed.

Lemma isReposted_spec S p :
  isReposted S p = Returned true ↔
  ∃ u r, identityPub S = Some u ∧ reposts p = Some r ∧ liveRepostEntry (jsGet r u).
Proof.
  pose proof (isReposted_cases S p) as H.
  destruct (identityPub S) as [u|].
  - rewrite H. destruct (reposts p) as [r|].
    + split.
      * intros [= Hm]. exists u, r. by rewrite <- repostMarker_live.
      * intros (? & ? & [= <-] & [= <-] & Hm). f_equal. by apply repostMarker_live.
    + split; [done|]. by intros (? & ? & _ & ? & _).
  - split; [destruct H as [-> | ->]; done|]. by intros (? & ? & ? & _).
Qed.

(** Whether the functions return depends on the session alone. *)
Lemma isReposted_returns S p q :
  (∃ b, isReposted S p = Returned b) → ∃ b, isReposted S q = Returned b.
Proof.
  unfold isReposted.
  destruct (negb (hasGun S) || negb (isLoggedIn S)); [by eauto|].
  destruct (pubThrows S); [by intros [? ?]|].
  destruct (truthyStr (getCurrentUserPub S)); [by eauto|].
  destruct (userThrows S); [by intros [? ?]|].
  destruct (userIsPub (user S)); by eauto.
Qed.

Lemma isReposted_lookupsReturn S p : lookupsReturn S → ∃ b, isReposted S p = Returned b.
Proof.
  intros [Hp Hu]. unfold isReposted. rewrite Hp, Hu.
  destruct (negb (hasGun S) || negb (isLoggedIn S)); [by eauto|].
  destruct (truthyStr (getCurrentUserPub S)); [by eauto|].
  destruct (userIsPub (user S)); by eauto.
Qed.

(** ** The lookup reads one soul; the feed keeps one entry per id *)

Section DetailFacts.
Variable G : Store.
Variable postId : string.
Variable t0 : Z.

Abbreviation step := (PostDetail.step G postId t0).
Abbreviation handle := (PostDetail.handle G postId t0).

Lemma loadedOnce_advance dt st : loadedOnce st → loadedOnce (PostDetail.advance dt st).
Proof.
  unfold loadedOnce, PostDetail.advance, PostDetail.fireEnrich, PostDetail.fireTimeout. simpl.
  intros H. repeat case_match; simpl; done.
Qed.

Lemma loadedOnce_handle ev st : loadedOnce st → loadedOnce (handle ev st).
Proof.
  unfold loadedOnce. intros H.
  destruct ev as [ch v| data | |]; simpl.
  - unfold PostDetail.onSoul, PostDetail.loadPostFromSoul.
    repeat case_match; simpl; try done.
    right. split; [done|]. destruct H as [[_ ->]|[Hf _]]; [done|].
    rewrite Hf, orb_true_r in *. done.
  - unfold PostDetail.onPostData. repeat case_match; simpl; done.
  - unfold PostDetail.onAuthorProfile. repeat case_match; simpl; done.
  - done.
Qed.

Lemma fold_step_invariant (I : PostDetail.State → Prop) :
  (∀ dt st, I st → I (PostDetail.advance dt st)) →
  (∀ ev st, I st → I (handle ev st)) →
  ∀ trace st, I st → I (fold_left step trace st).
Proof.
  intros Ha Hh trace. induction trace as [|[dt ev] trace IH]; intros st Hst; simpl; [done|].
  apply IH. unfold PostDetail.step. simpl. by apply Hh, Ha.
Qed.

Lemma loadedOnce_run trace : loadedOnce (PostDetail.run G postId t0 trace).
Proof.
  unfold PostDetail.run. apply (fold_step_invariant loadedOnce);
    [apply loadedOnce_advance|apply loadedOnce_handle|by left].
Qed.
End DetailFacts.

Lemma mapSet_keys k v (m : list (string * Post)) :
  (UserPosts.mapSet k v m).*1 = if decide (k ∈ m.*1) then m.*1 else m.*1 ++ [k].
Proof.
  induction m as [|[k' v'] m IH]; csimpl.
  - destruct (decide (k ∈ [])) as [H|_]; [by apply elem_of_nil in H|done].
  - destruct (String.eqb_spec k' k) as [->|Hne]; csimpl.
    + rewrite decide_True by apply list_elem_of_here. done.
    + rewrite IH. destruct (decide (k ∈ m.*1)) as [Hin|Hnin].
      * rewrite decide_True by by apply list_elem_of_further. done.
      * rewrite decide_False; [done|].
        intros [?|?]%elem_of_cons; congruence.
Qed.

Lemma mapSet_NoDup k v (m : list (string * Post)) :
  NoDup m.*1 → NoDup (UserPosts.mapSet k v m).*1.
Proof.
  intros Hnd. rewrite mapSet_keys. case_decide; [done|].
  apply NoDup_app. split; [done|]. split; [|apply NoDup_singleton].
  intros x Hx ->%list_elem_of_singleton. done.
Qed.

Lemma mapSet_ids k v (m : list (string * Post)) :
  id v = k →
  Forall (λ kv, id (snd kv) = fst kv) m →
  Forall (λ kv, id (snd kv) = fst kv) (UserPosts.mapSet k v m).
Proof.
  intros Hv. induction 1 as [|[k' v'] m Hkv Hm IH]; simpl.
  - by repeat constructor.
  - destruct (String.eqb k' k); constructor; done.
Qed.

Lemma insertNewestFirst_perm x l : UserPosts.insertNewestFirst x l ≡ₚ x :: l.
Proof.
  induction l as [|y l IH]; simpl; [done|].
  destruct (timestamp y <=? timestamp x)%Z; [done|].
  rewrite IH. apply perm_swap.
Qed.

Lemma sortNewestFirst_perm l : UserPosts.sortNewestFirst l ≡ₚ l.
Proof.
  induction l as [|x l IH]; simpl; [done|].
  rewrite insertNewestFirst_perm. by rewrite IH.
Qed.

Lemma ids_of_values (m : list (string * Post)) :
  Forall (λ kv, id (snd kv) = fst kv) m → id <$> UserPosts.mapValues m = m.*1.
Proof.
  unfold UserPosts.mapValues. induction 1 as [|[k v] m Hkv Hm IH]; csimpl in *; [done|].
  by rewrite Hkv, IH.
Qed.

Lemma feedOk_onPost st d : feedOk st → feedOk (UserPosts.onPost st d).
Proof.
  intros (Hnd & Hids & Hperm). unfold UserPosts.onPost.
  destruct (fst d) as [p|]; [|done].
  destruct (String.eqb (UserPosts.pwa_id p) ""); [done|].
  repeat split; simpl.
  - by apply mapSet_NoDup.
  - by apply mapSet_ids.
  - apply sortNewestFirst_perm.
Qed.

Lemma feedOk_deliver ds : feedOk (UserPosts.deliver ds).
Proof.
  unfold UserPosts.deliver.
  assert (feedOk UserPosts.init) as Hinit by (repeat split; simpl; [constructor|constructor|done]).
  revert Hinit. generalize UserPosts.init.
  induction ds as [|d ds IH]; intros st Hst; simpl; [done|].
  by apply IH, feedOk_onPost.
Qed.

(** ** The timeout of the lookup *)

Section TimeoutFacts.
Variable G : Store.
Variable postId : string.
Variable t0 : Z.

Abbreviation step := (PostDetail.step G postId t0).
Abbreviation handle := (PostDetail.handle G postId t0).
Abbreviation run := (PostDetail.run G postId t0).
Abbreviation runThen := (PostDetail.runThen G postId t0).

Ltac crush_state :=
  unfold PostDetail.advance, PostDetail.fireEnrich, PostDetail.fireTimeout, PostDetail.handle, PostDetail.onSoul,
    PostDetail.loadPostFromSoul, PostDetail.onPostData, PostDetail.onAuthorProfile, PostDetail.cleanup in *;
  simpl in *; repeat case_match; simpl in *; simplify_eq.

Lemma elapsed_advance dt st : PostDetail.elapsed (PostDetail.advance dt st) = (PostDetail.elapsed st + dt)%N.
Proof. crush_state; done. Qed.

Lemma elapsed_handle ev st : PostDetail.elapsed (handle ev st) = PostDetail.elapsed st.
Proof. destruct ev; crush_state; done. Qed.

Lemma elapsed_fold trace st :
  PostDetail.elapsed (fold_left step trace st) = (PostDetail.elapsed st + duration trace)%N.
Proof.
  revert st. induction trace as [|[dt ev] trace IH]; intros st; simpl; [lia|].
  rewrite IH. unfold PostDetail.step. simpl. rewrite elapsed_handle, elapsed_advance. lia.
Qed.

Lemma elapsed_run trace : PostDetail.elapsed (run trace) = duration trace.
Proof. unfold PostDetail.run. by rewrite elapsed_fold. Qed.

Lemma lateOnly_advance dt st : lateOnly st → lateOnly (PostDetail.advance dt st).
Proof.
  unfold lateOnly, PostDetail.advance, PostDetail.fireEnrich, PostDetail.fireTimeout. simpl. intros H.
  destruct (PostDetail.timeoutArmed st && (PostDetail.timeoutMs <=? PostDetail.elapsed st + dt)%N) eqn:Hfire.
  - apply andb_true_iff in Hfire as [_ Hle%N.leb_le].
    destruct (PostDetail.found st); simpl; repeat case_match; simpl; done.
  - repeat case_match; simpl; intros He; specialize (H He); lia.
Qed.

Lemma lateOnly_handle ev st : lateOnly st → lateOnly (handle ev st).
Proof. unfold lateOnly. intros H. destruct ev; crush_state; done. Qed.

Lemma lateOnly_run trace : lateOnly (run trace).
Proof.
  unfold PostDetail.run. apply (fold_step_invariant G postId t0 lateOnly);
    [apply lateOnly_advance|apply lateOnly_handle|done].
Qed.

Lemma foundQuiet_advance dt st : foundQuiet st → foundQuiet (PostDetail.advance dt st).
Proof. unfold foundQuiet. intros [Hf He]. crush_state; done. Qed.

Lemma foundQuiet_handle ev st : foundQuiet st → foundQuiet (handle ev st).
Proof. unfold foundQuiet. intros [Hf He]. destruct ev; crush_state; done. Qed.

Lemma listening_advance dt st : PostDetail.listening (PostDetail.advance dt st) = PostDetail.listening st.
Proof. crush_state; done. Qed.

Lemma listening_handle ev st :
  isCleanup ev = false → PostDetail.listening (handle ev st) = PostDetail.listening st.
Proof.
  intros Hc. destruct ev as [ch v|data| |]; simpl in *; try done.
  - destruct (PostDetail.listening st) eqn:Hl; [|done].
    unfold PostDetail.onSoul, PostDetail.loadPostFromSoul. repeat case_match; done.
  - unfold PostDetail.onPostData. repeat case_match; done.
  - unfold PostDetail.onAuthorProfile. case_match; done.
Qed.

Lemma listening_fold trace st :
  Forall noCleanup trace → PostDetail.listening st = true →
  PostDetail.listening (fold_left step trace st) = true.
Proof.
  intros Hall. revert st. induction Hall as [|[dt ev] trace Hev _ IH]; intros st Hst; [done|].
  simpl. apply IH. unfold PostDetail.step. simpl.
  by rewrite listening_handle, listening_advance.
Qed.

Lemma delivery_sets_found dt ch v st :
  PostDetail.validSoul v = true → PostDetail.listening st = true → lateOnly st →
  (PostDetail.elapsed st + dt < PostDetail.timeoutMs)%N →
  foundQuiet (step st (dt, PostDetail.Delivered ch v)).
Proof.
  intros Hv Hl Hlate Hdt. unfold PostDetail.step. simpl.
  pose proof (lateOnly_advance dt st Hlate) as Hlate'.
  pose proof (elapsed_advance dt st) as Hel.
  rewrite <- (listening_advance dt st) in Hl.
  unfold lateOnly in Hlate'. rewrite Hel in Hlate'.
  assert (PostDetail.error (PostDetail.advance dt st) ≠ Some postNotFound) as Herr
    by (intros He; specialize (Hlate' He); lia).
  revert Hl Herr. generalize (PostDetail.advance dt st). intros st' Hl Herr.
  unfold foundQuiet, PostDetail.onSoul, PostDetail.loadPostFromSoul. rewrite Hl.
  destruct v as [| | | |s| |]; simpl in Hv; try done.
  destruct (String.eqb s ""); [done|]. simpl.
  destruct (PostDetail.found st') eqn:Hf; simpl; done.
Qed.

Lemma silent_advance dt st : silent st → silent (PostDetail.advance dt st).
Proof.
  unfold silent. intros (Hf & Hp & He & Ha & Hl & Hcase).
  destruct st as [fnd lds pend dr due asked pst ld err armed lst el].
  simpl in *. subst. unfold PostDetail.advance, PostDetail.fireEnrich, PostDetail.fireTimeout. simpl.
  destruct Hcase as [(-> & Hlt & -> & ->)|(-> & Hle & -> & ->)]; simpl.
  - destruct (PostDetail.timeoutMs <=? el + dt)%N eqn:Hcmp; simpl.
    + apply N.leb_le in Hcmp. repeat split; try done. right. done.
    + apply N.leb_gt in Hcmp. repeat split; try done. left. done.
  - repeat split; try done. right. repeat split; try done. lia.
Qed.

Lemma silent_handle ev st :
  isCleanup ev = false → isValidDelivery ev = false → silent st → silent (handle ev st).
Proof.
  unfold silent. intros Hc Hv (Hf & Hp & He & Ha & Hl & Hcase).
  destruct ev as [ch v|data| |]; simpl in *; try done.
  - rewrite Hl. unfold PostDetail.onSoul, PostDetail.validSoul in *.
    destruct v as [| | | |s| |]; try done.
    apply negb_false_iff in Hv. by rewrite Hv.
  - unfold PostDetail.onPostData. by rewrite Hp.
  - unfold PostDetail.onAuthorProfile. by rewrite Ha.
Qed.

Lemma silent_fold trace st :
  Forall silentEvent trace → silent st → silent (fold_left step trace st).
Proof.
  intros Hall. revert st. induction Hall as [|[dt ev] trace [Hc Hv] _ IH]; intros st Hst; [done|].
  simpl. apply IH. unfold PostDetail.step. simpl in *. by apply silent_handle, silent_advance.
Qed.

Lemma silent_init : silent PostDetail.init.
Proof. unfold silent. simpl. repeat split; try done. left. repeat split; try done. Qed.

Lemma silent_view st :
  silent st → (PostDetail.timeoutMs ≤ PostDetail.elapsed st)%N → PostDetail.view st = PostDetail.NotFoundView postNotFound.
Proof.
  intros (_ & _ & _ & _ & _ & [(_ & Hlt & _)|(_ & _ & Herr & Hload)]) Hle; [lia|].
  unfold PostDetail.view. by rewrite Hload, Herr.
Qed.

Lemma delivered_early pre dt ch v rest :
  Forall noCleanup pre → PostDetail.validSoul v = true →
  (duration pre + dt < PostDetail.timeoutMs)%N →
  foundQuiet (run (pre ++ (dt, PostDetail.Delivered ch v) :: rest)).
Proof.
  intros Hpre Hv Hdt. unfold PostDetail.run. rewrite fold_left_app. simpl.
  apply (fold_step_invariant G postId t0 foundQuiet);
    [apply foundQuiet_advance|apply foundQuiet_handle|].
  apply delivery_sets_found; [done| |apply lateOnly_run|].
  - by apply listening_fold.
  - fold (run pre). by rewrite elapsed_run.
Qed.
End TimeoutFacts.



(** ** The actions when no graph call throws *)

Section QuietRules.
Context (E : Env) (Hq : quiet E).

Lemma ensures_put_quiet p v w (Q : Outcome unit → World → Prop) :
  Q (Returned tt) (mkWorld (<[p := v]> (graph w)) (userGraph w)
                           (writes w ++ [WGun p v]) (ticks w) (Datatypes.S (calls w))) →
  ensures (put E p v) w Q.
Proof. unfold ensures, put, gunCall. by rewrite Hq. Qed.

Lemma ensures_userPut_quiet p v w (Q : Outcome unit → World → Prop) :
  Q (Returned tt) (mkWorld (graph w) (<[p := v]> (userGraph w))
                           (writes w ++ [WUser p v]) (ticks w) (Datatypes.S (calls w))) →
  ensures (userPut E p v) w Q.
Proof. unfold ensures, userPut, gunCall. by rewrite Hq. Qed.

Lemma ensures_once_quiet p w (Q : Outcome JsVal → World → Prop) :
  Q (Returned (delivered p (default JUndefined (graph w !! p)))) (bumped w) →
  ensures (once E p) w Q.
Proof. unfold ensures, once, gunCall. by rewrite Hq. Qed.
End QuietRules.

Ltac wpq_step Hq :=
  cbv beta iota;
  lazymatch goal with
  | |- ensures (tryCatch _ _) _ _ => apply ensures_try
  | |- ensures (mbind _ _) _ _ => apply ensures_bind
  | |- ensures (mret _) _ _ => apply ensures_ret
  | |- ensures (dateNow _) _ _ => apply ensures_dateNow
  | |- ensures (put _ _ _) _ _ => apply (ensures_put_quiet _ Hq)
  | |- ensures (userPut _ _ _) _ _ => apply (ensures_userPut_quiet _ Hq)
  | |- ensures (once _ _) _ _ => apply (ensures_once_quiet _ Hq)
  end.

Ltac wpq Hq := unfold readPost; repeat wpq_step Hq.

Lemma ensures_mono {A} (m : M A) w (Q1 Q2 : Outcome A → World → Prop) :
  ensures m w Q1 → (∀ o w', Q1 o w' → Q2 o w') → ensures m w Q2.
Proof. unfold ensures. intros H HQ. by apply HQ. Qed.

Lemma ensures_run {A} (m : M A) w (Q : Outcome A → World → Prop) :
  ensures m w Q → Q (fst (m w)) (snd (m w)).
Proof. done. Qed.

Lemma plain_action_quiet E S a postId u w :
  quiet E → a ≠ Repost →
  identityPub S = Some u → (a = Unrepost → resolveRepostPub S = Some u) →
  ensures (perform E S a postId) w
    (endsWith succeeded (λ w',
       writes w' = writes w ++ plainWrites a u postId ∧
       graph w' = foldl applyGun (graph w) (plainWrites a u postId) ∧
       userGraph w' = foldl applyUser (userGraph w) (plainWrites a u postId) ∧
       calls w' = calls w + length (plainWrites a u postId) ∧
       ticks w' = ticks w)).
Proof.
  intros Hq Ha Hu Hres. unfold identityPub in Hu.
  destruct a; try done; unfold perform, likePost, unlikePost, unrepost;
    (destruct (negb (hasGun S) || negb (isLoggedIn S)); [done|]).
  - like_prelude S Hpt Hut; [done| |done|];
      [|destruct (userIsPub (user S)) as [u'|]; [|done]]; simplify_eq;
      wpq Hq; (split; [done|]); simpl; rewrite <- ?app_assoc; repeat split; try done; lia.
  - like_prelude S Hpt Hut; [done| |done|];
      [|destruct (userIsPub (user S)) as [u'|]; [|done]]; simplify_eq;
      wpq Hq; (split; [done|]); simpl; rewrite <- ?app_assoc; repeat split; try done; lia.
  - destruct (resolveRepostPub_Some _ _ (Hres eq_refl)) as (Hut & Hpt & Hr).
    rewrite (bind_callUser S), Hut, (bind_callPub S), Hpt, Hr.
    wpq Hq. split; [done|]. simpl. rewrite <- !app_assoc. repeat split; try done; lia.
Qed.

Lemma readPost_quiet E p w (Q : Outcome (option (list (string * JsVal))) → World → Prop) :
  quiet E →
  Q (Returned (payloadOf (default JUndefined (graph w !! p)))) (bumped w) →
  ensures (readPost E p) w Q.
Proof.
  intros Hq HQ. unfold readPost. apply ensures_bind, (ensures_once_quiet _ Hq).
  apply ensures_ret. fold (payloadOf (delivered p (default JUndefined (graph w !! p)))).
  by rewrite payloadOf_delivered.
Qed.

Lemma repost_quiet (E : Env) (S : Session) (postId u : string) (w : World) :
  quiet E → hasGun S = true → isLoggedIn S = true → resolveRepostPub S = Some u →
  let run := repost E S postId w in
  match resolvePost S (graph w) postId with
  | None =>
      fst run = Returned (failed "Post not found") ∧
      writes (snd run) = writes w ∧ graph (snd run) = graph w ∧
      userGraph (snd run) = userGraph w
  | Some post =>
      fst run = Returned succeeded ∧
      writes (snd run) = writes w ++
        repostWrites u postId (indexTimestamp E post (ticks w))
          (now E (ticks w + clockReads post))
          (now E (Datatypes.S (ticks w + clockReads post)))
  end.
Proof.
  intros Hq Hgun Hlog Hu run. unfold run.
  apply (ensures_run (repost E S postId) w
           (λ o w', match resolvePost S (graph w) postId with
                    | None => o = Returned (failed "Post not found") ∧
                              writes w' = writes w ∧ graph w' = graph w ∧
                              userGraph w' = userGraph w
                    | Some post =>
                        o = Returned succeeded ∧
                        writes w' = writes w ++
                          repostWrites u postId (indexTimestamp E post (ticks w))
                            (now E (ticks w + clockReads post))
                            (now E (Datatypes.S (ticks w + clockReads post)))
                    end)).
  destruct (resolveRepostPub_Some _ _ Hu) as (Hut & Hpt & Hres).
  unfold repost, resolvePost. rewrite Hgun, Hlog. simpl.
  rewrite (bind_callUser S), Hut, (bind_callPub S), Hpt, Hres.
  apply ensures_try, ensures_bind.
  assert (∀ post w1, graph w1 = graph w → userGraph w1 = userGraph w →
            writes w1 = writes w → ticks w1 = ticks w →
            ensures
              ((if truthy (objGet post "timestamp")
                then mret (objGet post "timestamp")
                else dateNow E ≫= λ t, mret (JNum t))
               ≫= λ repostTimestamp,
                 dateNow E ≫= λ t1,
                 put E (repostsPath postId ++ [u]) (JObj [("timestamp", JNum t1)]) ≫= λ _,
                 dateNow E ≫= λ t2,
                 put E (mirrorRepostsPath postId ++ [u]) (JObj [("timestamp", JNum t2)]) ≫= λ _,
                 userPut E (ownPostsPath postId) (repostEntry postId repostTimestamp) ≫= λ _,
                 put E (userIndexPath u postId) (repostEntry postId repostTimestamp) ≫= λ _,
                 mret succeeded) w1
              (λ o w', match o with
                       | Returned a =>
                           Returned a = Returned succeeded ∧
                           writes w' = writes w ++
                             repostWrites u postId (indexTimestamp E post (ticks w))
                               (now E (ticks w + clockReads post))
                               (now E (Datatypes.S (ticks w + clockReads post)))
                       | Thrown => False
                       end)) as Hwrites.
  { intros post w1 Hg1 Hu1 Hw1 Ht1. unfold indexTimestamp, clockReads.
    destruct (truthy (objGet post "timestamp")); wpq Hq; simpl;
      (split; [done|]); rewrite Hw1, Ht1, <- !app_assoc; simpl;
      rewrite ?Nat.add_0_r, ?Nat.add_1_r; done. }
  assert (∀ w1, graph w1 = graph w → userGraph w1 = userGraph w →
            writes w1 = writes w → ticks w1 = ticks w →
            ∀ fromHash,
            ensures
              (match fromHash with
               | Some post => mret (Some post)
               | None => readPost E [appName; "posts"; postId]
               end ≫= λ originalPost,
                 match originalPost with
                 | Some post =>
                     (if truthy (objGet post "timestamp")
                      then mret (objGet post "timestamp")
                      else dateNow E ≫= λ t, mret (JNum t))
                     ≫= λ repostTimestamp,
                       dateNow E ≫= λ t1,
                       put E (repostsPath postId ++ [u]) (JObj [("timestamp", JNum t1)]) ≫= λ _,
                       dateNow E ≫= λ t2,
                       put E (mirrorRepostsPath postId ++ [u]) (JObj [("timestamp", JNum t2)]) ≫= λ _,
                       userPut E (ownPostsPath postId) (repostEntry postId repostTimestamp) ≫= λ _,
                       put E (userIndexPath u postId) (repostEntry postId repostTimestamp) ≫= λ _,
                       mret succeeded
                 | None => mret (failed "Post not found")
                 end) w1
              (λ o w',
                 match o with
                 | Returned a =>
                     match (match fromHash with
                            | Some post => Some post
                            | None => payloadOf (default JUndefined
                                                   (graph w !! [appName; "posts"; postId]))
                            end) with
                     | None => Returned a = Returned (failed "Post not found") ∧
                               writes w' = writes w ∧ graph w' = graph w ∧
                               userGraph w' = userGraph w
                     | Some post =>
                         Returned a = Returned succeeded ∧
                         writes w' = writes w ++
                           repostWrites u postId (indexTimestamp E post (ticks w))
                             (now E (ticks w + clockReads post))
                             (now E (Datatypes.S (ticks w + clockReads post)))
                     end
                 | Thrown => False
                 end)) as Hrest.
  { intros w1 Hg1 Hu1 Hw1 Ht1 [post|].
    - apply ensures_bind, ensures_ret. by apply Hwrites.
    - apply ensures_bind, (readPost_quiet _ _ _ _ Hq). rewrite Hg1.
      destruct (payloadOf _) as [post|]; [by apply Hwrites|].
      apply ensures_ret. done. }
  destruct (SEA S).
  - apply ensures_bind, (ensures_once_quiet _ Hq).
    destruct (default JUndefined (graph w !! ["#posts"; postId])) as [| |b|n|soul|f|];
      cbn [delivered];
      try (apply ensures_ret;
           apply (ensures_mono _ _ _ _ (Hrest (bumped w) eq_refl eq_refl eq_refl eq_refl None));
           by intros [a|] w').
    destruct (String.eqb soul "").
    + apply ensures_ret.
      apply (ensures_mono _ _ _ _ (Hrest (bumped w) eq_refl eq_refl eq_refl eq_refl None)).
      by intros [a|] w'.
    + apply (readPost_quiet _ _ _ _ Hq). simpl.
      apply (ensures_mono _ _ _ _
               (Hrest (bumped (bumped w)) eq_refl eq_refl eq_refl eq_refl
                  (payloadOf (default JUndefined (graph w !! [soul]))))).
      by intros [a|] w'.
  - apply ensures_ret.
    apply (ensures_mono _ _ _ _ (Hrest w eq_refl eq_refl eq_refl eq_refl None)).
    by intros [a|] w'.
Qed.

(** * The claims *)




(** C2 (as amended).  A successful [repost(postId)] followed by a successful
    [unrepost(postId)]: unrepost overwrites with [null] exactly the four
    targets repost wrote (the repost record entry, its interactions mirror,
    the entry in the user's own graph and [users/{userPub}/posts/{postId}]),
    in the same order.  When these four entries were absent or tombstoned
    before the repost, the public graph, the user's own graph and the repost
    count read, up to tombstones, as they did before the repost. *)
Theorem repost_then_unrepost (E : Env) (S : Session) (postId : string)
    (w : World) (r1 : ActionResult) (w1 : World) (r2 : ActionResult) (w2 : World) :
  repost E S postId w = (Returned r1, w1) → success r1 = true →
  unrepost E S postId w1 = (Returned r2, w2) → success r2 = true →
  ∃ u new1 new2,
    resolveRepostPub S = Some u ∧
    writes w1 = writes w ++ new1 ∧ writes w2 = writes w1 ++ new2 ∧
    new2 = tombstone <$> new1 ∧
    writePath <$> new1 = [repostsPath postId ++ [u]; mirrorRepostsPath postId ++ [u];
                          ownPostsPath postId; userIndexPath u postId] ∧
    (live (graph w) (repostsPath postId ++ [u]) = None →
     live (graph w) (mirrorRepostsPath postId ++ [u]) = None →
     live (graph w) (userIndexPath u postId) = None →
     live (userGraph w) (ownPostsPath postId) = None →
     (∀ p, live (graph w2) p = live (graph w) p) ∧
     (∀ p, live (userGraph w2) p = live (userGraph w) p) ∧
     (∀ payload nowMs,
        getRepostCount (shownPost (graph w2) postId payload nowMs)
        = getRepostCount (shownPost (graph w) postId payload nowMs))).
Proof.
  intros Hrep Hok1 Hunrep Hok2.
  destruct (repost_success _ _ _ _ _ _ Hrep Hok1)
    as (u & ts & t1 & t2 & Hu & Hg1 & Hug1 & Hw1).
  destruct (ensures_elim _ _ _ _ _ (unrepost_ensures E S postId w1) Hunrep r2 eq_refl Hok2)
    as (u' & Hu' & Hg2 & Hug2 & Hw2).
  assert (u' = u) as -> by congruence.
  exists u, (repostWrites u postId ts t1 t2), (unrepostWrites u postId).
  do 5 (split; [done|]).
  intros H1 H2 H3 H4.
  assert (∀ p, live (graph w2) p = live (graph w) p) as Hlive.
  { intros p. rewrite Hg2, Hg1. rewrite !live_insert_null.
    repeat case_decide; simplify_eq; try done.
    unfold live. rewrite !lookup_insert_ne by done. done. }
  split; [done|]. split.
  - intros p. rewrite Hug2, Hug1, live_insert_null.
    case_decide; simplify_eq; [done|]. unfold live. by rewrite lookup_insert_ne.
  - intros payload nowMs. unfold shownPost, PostDetail.toPost, getRepostCount. simpl.
    by rewrite (live_eq_loadReposts _ _ _ Hlive).
Qed.

(** alice reposts and unreposts bob's post p1: her repost entry and her
    index entry read as before. *)
Lemma repost_then_unrepost_witness :
  let run1 := repost quietEnv (sessionOf "alice") "p1" otherPostWorld in
  let run2 := unrepost quietEnv (sessionOf "alice") "p1" (snd run1) in
  live (graph (snd run2)) (repostsPath "p1" ++ ["alice"])
    = live (graph otherPostWorld) (repostsPath "p1" ++ ["alice"]) ∧
  live (graph (snd run2)) (userIndexPath "alice" "p1")
    = live (graph otherPostWorld) (userIndexPath "alice" "p1").
Proof.
  intros run1 run2.
  cut (∀ p, live (graph (snd run2)) p = live (graph otherPostWorld) p);
    [intros Hall; split; apply Hall|].
  destruct (repost_then_unrepost quietEnv (sessionOf "alice") "p1" otherPostWorld
              succeeded (snd run1) succeeded (snd run2))
    as (u & new1 & new2 & Hu & _ & _ & _ & _ & Hrestore).
  - vm_compute. reflexivity.
  - reflexivity.
  - vm_compute. reflexivity.
  - reflexivity.
  - assert (u = "alice") as -> by (vm_compute in Hu; congruence).
    apply Hrestore; vm_compute; reflexivity.
Defined.

(** C2 as stated fails when an entry was live before the repost: alice's own
    post p1 is indexed at [users/alice/posts/p1]; after she reposts and
    unreposts it, that entry is tombstoned instead of restored. *)
Lemma repost_unrepost_drops_own_index_entry :
  let run1 := repost quietEnv (sessionOf "alice") "p1" ownPostWorld in
  let run2 := unrepost quietEnv (sessionOf "alice") "p1" (snd run1) in
  fst run1 = Returned succeeded ∧ fst run2 = Returned succeeded ∧
  live (graph ownPostWorld) (userIndexPath "alice" "p1")
    = Some (JObj [("id", JStr "p1"); ("timestamp", JNum 5)]) ∧
  live (graph (snd run2)) (userIndexPath "alice" "p1") = None.
Proof. vm_compute. done. Qed.

(** C3 (as amended).  For every post, the like count and the repost count
    are functions of the post's interaction records alone: the number of
    entries with a truthy value whose key does not start with ['_'].  An
    entry overwritten with [null] (or absent) contributes 0. *)
Theorem counts_are_live (p : Post) :
  getLikeCount p = countedEntries (default ∅ (likes p)) ∧
  getRepostCount p = countedEntries (default ∅ (reposts p)) ∧
  (∀ (r : JsRecord) k, countKeys (<[k := JNull]> r) = countKeys (delete k r)) ∧
  (∀ (r : JsRecord) k, countKeys (<[k := JUndefined]> r) = countKeys (delete k r)).
Proof.
  unfold getLikeCount, getRepostCount. repeat split.
  - destruct (likes p); simpl; [apply countKeys_countedEntries|].
    unfold countedEntries. by rewrite map_filter_empty, map_size_empty.
  - destruct (reposts p); simpl; [apply countKeys_countedEntries|].
    unfold countedEntries. by rewrite map_filter_empty, map_size_empty.
  - intros r k. by rewrite countKeys_insert.
  - intros r k. by rewrite countKeys_insert.
Qed.

(** C3 as stated fails on an entry whose key starts with ['_']: the records
    of [underscorePost] hold one entry with a truthy value each, and both
    counts are 0. *)
Lemma underscore_entry_not_counted :
  truthyEntries (default ∅ (likes underscorePost)) = 1 ∧ getLikeCount underscorePost = 0 ∧
  truthyEntries (default ∅ (reposts underscorePost)) = 1 ∧ getRepostCount underscorePost = 0.
Proof. vm_compute. done. Qed.

(** C4.  A successful [repost(postId)] sets a [{timestamp}] entry keyed by
    the user's public key in the post's repost record and writes
    [{id: postId, timestamp, reposted: true}] into the user's own post index
    (the user's graph and [users/{userPub}/posts/{postId}]); a successful
    [unrepost(postId)] sets them to [null].  Both do succeed for an
    authenticated user when no graph call throws: [unrepost] always, [repost]
    when the post id resolves. *)
Theorem repost_sets_unrepost_clears (E : Env) (S : Session) (postId : string)
    (w : World) (r : ActionResult) (w1 : World) :
  (repost E S postId w = (Returned r, w1) → success r = true →
   ∃ u t ts,
     resolveRepostPub S = Some u ∧
     graph w1 !! (repostsPath postId ++ [u]) = Some (JObj [("timestamp", JNum t)]) ∧
     graph w1 !! userIndexPath u postId
       = Some (JObj [("id", JStr postId); ("timestamp", ts); ("reposted", JBool true)]) ∧
     userGraph w1 !! ownPostsPath postId
       = Some (JObj [("id", JStr postId); ("timestamp", ts); ("reposted", JBool true)])) ∧
  (unrepost E S postId w = (Returned r, w1) → success r = true →
   ∃ u,
     resolveRepostPub S = Some u ∧
     graph w1 !! (repostsPath postId ++ [u]) = Some JNull ∧
     graph w1 !! userIndexPath u postId = Some JNull ∧
     userGraph w1 !! ownPostsPath postId = Some JNull) ∧
  (quiet E → hasGun S = true → isLoggedIn S = true → is_Some (resolveRepostPub S) →
   (is_Some (resolvePost S (graph w) postId) →
    fst (repost E S postId w) = Returned succeeded) ∧
   fst (unrepost E S postId w) = Returned succeeded).
Proof.
  split; [|split]; [intros Hrun Hok|intros Hrun Hok|intros Hq Hgun Hlog [u Hu]].
  - destruct (repost_success _ _ _ _ _ _ Hrun Hok)
      as (u & ts & t1 & t2 & Hu & Hg & Hug & _).
    exists u, t1, ts. rewrite Hg, Hug. split; [done|]. split; [|split].
    + rewrite !lookup_insert_ne by done. apply lookup_insert_eq.
    + apply lookup_insert_eq.
    + apply lookup_insert_eq.
  - destruct (ensures_elim _ _ _ _ _ (unrepost_ensures E S postId w) Hrun r eq_refl Hok)
      as (u & Hu & Hg & Hug & _).
    exists u. rewrite Hg, Hug. split; [done|]. split; [|split].
    + rewrite !lookup_insert_ne by done. apply lookup_insert_eq.
    + apply lookup_insert_eq.
    + apply lookup_insert_eq.
  - split.
    + intros [post Hpost].
      pose proof (repost_quiet E S postId u w Hq Hgun Hlog Hu) as H.
      rewrite Hpost in H. apply H.
    + assert (identityPub S = Some u) as Hid
        by (apply resolveRepostPub_identity; [by rewrite Hgun, Hlog|done]).
      apply (ensures_run _ _ _
               (plain_action_quiet E S Unrepost postId u w Hq ltac:(done) Hid ltac:(done))).
Qed.

(** alice reposts bob's post p1, then unreposts it: the entries are set,
    then cleared. *)
Lemma repost_sets_unrepost_clears_witness :
  let run1 := repost quietEnv (sessionOf "alice") "p1" otherPostWorld in
  let run2 := unrepost quietEnv (sessionOf "alice") "p1" (snd run1) in
  (∃ u t ts,
     resolveRepostPub (sessionOf "alice") = Some u ∧
     graph (snd run1) !! (repostsPath "p1" ++ [u]) = Some (JObj [("timestamp", JNum t)]) ∧
     graph (snd run1) !! userIndexPath u "p1"
       = Some (JObj [("id", JStr "p1"); ("timestamp", ts); ("reposted", JBool true)]) ∧
     userGraph (snd run1) !! ownPostsPath "p1"
       = Some (JObj [("id", JStr "p1"); ("timestamp", ts); ("reposted", JBool true)])) ∧
  (∃ u,
     resolveRepostPub (sessionOf "alice") = Some u ∧
     graph (snd run2) !! (repostsPath "p1" ++ [u]) = Some JNull ∧
     graph (snd run2) !! userIndexPath u "p1" = Some JNull ∧
     userGraph (snd run2) !! ownPostsPath "p1" = Some JNull) ∧
  fst run1 = Returned succeeded ∧ fst run2 = Returned succeeded.
Proof.
  intros run1 run2. split; [|split; [|split]].
  - apply (proj1 (repost_sets_unrepost_clears quietEnv (sessionOf "alice") "p1"
                    otherPostWorld succeeded (snd run1))).
    + vm_compute. reflexivity.
    + reflexivity.
  - apply (proj1 (proj2 (repost_sets_unrepost_clears quietEnv (sessionOf "alice") "p1"
                           (snd run1) succeeded (snd run2)))).
    + vm_compute. reflexivity.
    + reflexivity.
  - refine (proj1 (proj2 (proj2 (repost_sets_unrepost_clears quietEnv (sessionOf "alice") "p1"
                                   otherPostWorld succeeded (snd run1)))
                     _ eq_refl eq_refl _) _).
    + intros n. reflexivity.
    + vm_compute. by eexists.
    + vm_compute. by eexists.
  - refine (proj2 (proj2 (proj2 (repost_sets_unrepost_clears quietEnv (sessionOf "alice") "p1"
                                   (snd run1) succeeded (snd run2)))
                     _ eq_refl eq_refl _)).
    + intros n. reflexivity.
    + vm_compute. by eexists.
Defined.

(** C5.  Redelivery of the same target produces at most one processed
    result: whatever is delivered, however often and on whichever channel
    (the content-addressed table or any timeline shard), the post-detail
    lookup reads at most one post soul; and the user-posts subscription keeps
    at most one entry per post id, in its map and in the sorted list. *)
Theorem redelivery_processed_once :
  (∀ (G : Store) (postId : string) (t0 : Z) (trace : list (N * PostDetail.Event)),
     (length (PostDetail.loaded (PostDetail.run G postId t0 trace)) ≤ 1)%nat) ∧
  (∀ ds : list (option UserPosts.PostWithAuthor * Z),
     NoDup ((UserPosts.postsMap (UserPosts.deliver ds)).*1) ∧
     NoDup (id <$> UserPosts.posts (UserPosts.deliver ds))).
Proof.
  split.
  - intros G postId t0 trace.
    destruct (loadedOnce_run G postId t0 trace) as [[_ ->]|[_ ->]]; simpl; lia.
  - intros ds. destruct (feedOk_deliver ds) as (Hnd & Hids & Hperm).
    split; [done|]. rewrite Hperm, ids_of_values by done. done.
Qed.

(** C6 (as amended).  In the post-detail lookup the error 'Post not found'
    is reported only once the 8-second bound has elapsed; if a post soul is
    delivered before the bound (with the listeners still installed), 'Post
    not found' is never reported; if no post soul is delivered within the
    bound, the lookup reports 'Post not found' when the bound elapses.  The
    other not-found report, 'Post data not found', is made at once when the
    read of a delivered soul yields no object. *)
Theorem post_not_found_only_by_timeout (G : Store) (postId : string) (t0 : Z) :
  (∀ trace dt,
     PostDetail.error (PostDetail.run G postId t0 trace) = Some postNotFound ∨
     PostDetail.error (PostDetail.runThen G postId t0 trace dt) = Some postNotFound →
     (PostDetail.timeoutMs ≤ duration trace + dt)%N) ∧
  (∀ pre dt ch v rest dt',
     Forall noCleanup pre → PostDetail.validSoul v = true →
     (duration pre + dt < PostDetail.timeoutMs)%N →
     PostDetail.error (PostDetail.run G postId t0 (pre ++ (dt, PostDetail.Delivered ch v) :: rest))
       ≠ Some postNotFound ∧
     PostDetail.error (PostDetail.runThen G postId t0
                         (pre ++ (dt, PostDetail.Delivered ch v) :: rest) dt')
       ≠ Some postNotFound) ∧
  (∀ pre dt,
     Forall silentEvent pre → (PostDetail.timeoutMs ≤ duration pre + dt)%N →
     PostDetail.error (PostDetail.runThen G postId t0 pre dt) = Some postNotFound ∧
     PostDetail.view (PostDetail.runThen G postId t0 pre dt)
       = PostDetail.NotFoundView postNotFound) ∧
  (∀ st data,
     PostDetail.pendingReads st ≠ 0 → (∀ f, data ≠ JObj f) →
     PostDetail.view (PostDetail.handle G postId t0 (PostDetail.PostData data) st)
       = PostDetail.NotFoundView postDataNotFound).
Proof.
  split; [|split; [|split]].
  - intros trace dt [He|He].
    + pose proof (lateOnly_run G postId t0 trace He) as Hle.
      rewrite elapsed_run in Hle. lia.
    + pose proof (lateOnly_advance dt _ (lateOnly_run G postId t0 trace) He) as Hle.
      rewrite elapsed_advance, elapsed_run in Hle. done.
  - intros pre dt ch v rest dt' Hpre Hv Hdt. split.
    + by apply delivered_early.
    + by apply foundQuiet_advance, delivered_early.
  - intros pre dt Hpre Hdt.
    assert (silent (PostDetail.runThen G postId t0 pre dt)) as Hs
      by (apply silent_advance, silent_fold; [done|apply silent_init]).
    assert (PostDetail.timeoutMs ≤ PostDetail.elapsed (PostDetail.runThen G postId t0 pre dt))%N
      as Hle by (unfold PostDetail.runThen; by rewrite elapsed_advance, elapsed_run).
    split; [|by apply silent_view].
    destruct Hs as (_ & _ & _ & _ & _ & [(_ & Hlt & _)|(_ & _ & Herr & _)]); [lia|done].
  - intros st data Hp Hd. unfold PostDetail.handle, PostDetail.onPostData, PostDetail.view.
    destruct (PostDetail.pendingReads st); [done|].
    destruct data; simpl; try done. by destruct (Hd fields).
Qed.

(** A null delivery after 3 s, then 5 s of silence: 'Post not found'. *)
Lemma post_not_found_only_by_timeout_witness :
  PostDetail.view
    (PostDetail.runThen ∅ "p1" 0 [(3000%N, PostDetail.Delivered PostDetail.HashTable JNull)] 5000)
    = PostDetail.NotFoundView postNotFound.
Proof.
  apply (proj1 (proj2 (proj2 (post_not_found_only_by_timeout ∅ "p1" 0))) _ 5000%N).
  - repeat constructor.
  - vm_compute. discriminate.
Defined.

(** C6 as stated fails: a soul delivered after 10 ms whose read returns
    [undefined] 20 ms later makes the lookup show the not-found panel with
    'Post data not found' at 30 ms, long before the 8-second bound. *)
Lemma data_not_found_before_timeout :
  let st := PostDetail.run ∅ "p1" 0
              [(10%N, PostDetail.Delivered PostDetail.HashTable (JStr "soul1"));
               (20%N, PostDetail.PostData JUndefined)] in
  PostDetail.found st = true ∧ PostDetail.elapsed st = 30%N ∧
  (PostDetail.elapsed st < PostDetail.timeoutMs)%N ∧
  PostDetail.view st = PostDetail.NotFoundView "Post data not found".
Proof. vm_compute. done. Qed.



(** C8 (as amended).  [likePost], [unlikePost], [repost] and [unrepost]
    return a result [{success: true}] or [{success: false, error}] whenever
    the identity lookups they make before their [try] block
    ([getCurrentUserPub(gun)], [gun.user()]) return: whatever the graph
    holds and whichever graph calls throw, an exception raised inside the
    [try] block is caught and turned into a failure result.  The only other
    outcome is an exception of one of these lookups, which is not caught; the
    world is then as it was. *)
Theorem actions_return_result (E : Env) (S : Session) (a : Action) (postId : string)
    (w : World) :
  (lookupsReturn S → ∃ r w', perform E S a postId w = (Returned r, w') ∧ shaped r) ∧
  (∀ o w', perform E S a postId w = (o, w') →
     (∃ r, o = Returned r ∧ shaped r) ∨
     (o = Thrown ∧ w' = w ∧ (pubThrows S = true ∨ userThrows S = true))).
Proof.
  split.
  - intros Hret. pose proof (perform_returns E S a postId w Hret) as H. unfold ensures in H.
    destruct (perform E S a postId w) as [o w'] eqn:Hrun. simpl in H.
    destruct H as (r & -> & Hs). eauto.
  - intros o w' Hrun.
    apply (ensures_elim _ _ _ _ _ (perform_outcome E S a postId w) Hrun).
Qed.

(** Every graph call throws: alice's repost of p1 still returns a result. *)
Lemma actions_return_result_witness :
  ∃ r w', perform failingEnv (sessionOf "alice") Repost "p1" otherPostWorld = (Returned r, w')
          ∧ shaped r.
Proof.
  apply (proj1 (actions_return_result failingEnv (sessionOf "alice") Repost "p1"
                  otherPostWorld)).
  split; reflexivity.
Defined.

(** C8 as stated fails: when [gun.user()] throws, [repost] and [unrepost]
    end in that exception instead of a result, and when
    [getCurrentUserPub(gun)] throws, so do [likePost] and [unlikePost]; no
    graph call is involved. *)
Lemma identity_lookup_throw_escapes :
  repost quietEnv (userLookupThrows "alice") "p1" otherPostWorld = (Thrown, otherPostWorld) ∧
  unrepost quietEnv (userLookupThrows "alice") "p1" otherPostWorld = (Thrown, otherPostWorld) ∧
  likePost quietEnv (pubLookupThrows "alice") "p1" otherPostWorld = (Thrown, otherPostWorld) ∧
  unlikePost quietEnv (pubLookupThrows "alice") "p1" otherPostWorld = (Thrown, otherPostWorld).
Proof. vm_compute. done. Qed.

(** C9 (as amended).  Whether a displayed post is a repost is derived on two
    paths.  On ['/my-posts'] it is a repost exactly when its author differs
    from the current user, whatever the repost record holds.  On every other
    page it is a repost exactly when the author differs and the value found
    under the current identity's key in the repost record is a repost marker:
    [true], or an object without a truthy ['_'] field.  A [null] or absent
    entry is no marker, and the [{timestamp}] object written by [repost] is
    one as written; other non-tombstoned values (a number, a string, an
    object carrying ['_']) are none.  The classification exists whenever the
    identity lookups of [isReposted] return. *)
Theorem repost_badge_two_paths (S : Session) (pathname : string) (p : Post) :
  (pathname = "/my-posts" →
     (PostCard.isRepostedPost S pathname p = Returned true ↔
        ctxUserPub S ≠ Some (author p) ∧ ∃ b, isReposted S p = Returned b) ∧
     (∀ r, PostCard.isRepostedPost S pathname
             (mkPost (id p) (author p) (content p) (timestamp p) (likes p) r (replyTo p) (media p))
           = PostCard.isRepostedPost S pathname p)) ∧
  (pathname ≠ "/my-posts" →
     (PostCard.isRepostedPost S pathname p = Returned true ↔
        ctxUserPub S ≠ Some (author p) ∧
        ∃ u r, identityPub S = Some u ∧ reposts p = Some r ∧ liveRepostEntry (jsGet r u))) ∧
  (lookupsReturn S → ∃ b, PostCard.isRepostedPost S pathname p = Returned b) ∧
  (¬ liveRepostEntry JNull ∧ ¬ liveRepostEntry JUndefined ∧
   (∀ t, liveRepostEntry (JObj [("timestamp", JNum t)])) ∧
   (∀ n, ¬ liveRepostEntry (JNum n)) ∧ (∀ s, ¬ liveRepostEntry (JStr s)) ∧
   (∀ q f, ¬ liveRepostEntry (delivered q (JObj f)))).
Proof.
  assert (negb (PostCard.isOwnPost S p) = true ↔ ctxUserPub S ≠ Some (author p)) as Hown.
  { unfold PostCard.isOwnPost. destruct (ctxUserPub S) as [me|]; [|done].
    destruct (String.eqb_spec (author p) me) as [->|Hne]; simpl; split; try done.
    intros _ [= Heq]. congruence. }
  unfold PostCard.isRepostedPost, PostCard.isMyPostsPage. split; [|split; [|split]].
  - intros ->. simpl. split.
    + destruct (isReposted S p) as [b|]; split.
      * intros [= H]. split; [by apply Hown|by eexists].
      * intros [H _]. f_equal. by apply Hown.
      * done.
      * by intros [_ [? ?]].
    + intros r.
      destruct (isReposted S p) as [b|] eqn:Hb.
      * destruct (isReposted_returns S p
                    (mkPost (id p) (author p) (content p) (timestamp p) (likes p) r
                            (replyTo p) (media p)) ltac:(by eexists)) as [b' ->].
        done.
      * destruct (isReposted S (mkPost _ _ _ _ _ r _ _)) as [b'|] eqn:Hb'; [|done].
        destruct (isReposted_returns S _ p ltac:(by eexists)) as [b'' ?]. congruence.
  - intros Hne. destruct (String.eqb_spec pathname "/my-posts"); [done|].
    rewrite <- isReposted_spec, <- Hown.
    destruct (isReposted S p) as [b|]; split.
    + intros [= H]. apply andb_true_iff in H as [? ->]. done.
    + intros [-> [= ->]]. done.
    + done.
    + by intros [_ ?].
  - intros Hret. destruct (isReposted_lookupsReturn S p Hret) as [b ->]. by eexists.
  - split; [|split; [|split; [|split; [|split]]]].
    + intros [?|(f & ? & _)]; done.
    + intros [?|(f & ? & _)]; done.
    + intros t. right. by eexists.
    + intros n [?|(f & ? & _)]; done.
    + intros s0 [?|(f & ? & _)]; done.
    + intros q f [?|(f' & [= <-] & Hf)]; done.
Qed.

(** On ['/my-posts'] bob's post shows as a repost to alice although its
    repost record is empty. *)
Lemma repost_badge_two_paths_witness :
  PostCard.isRepostedPost (sessionOf "alice") "/my-posts" bobPost = Returned true.
Proof.
  apply (proj1 (proj1 (repost_badge_two_paths (sessionOf "alice") "/my-posts" bobPost)
                  eq_refl)).
  split; [simpl; discriminate|by eexists].
Defined.

(** C9 as stated fails: on the timeline, bob's post holds under alice's key
    the repost entry as the graph delivers it, an object with metadata.  The
    entry is not tombstoned and [getRepostCount] counts it, yet the post is
    not classified as a repost. *)
Lemma delivered_repost_entry_not_classified :
  identityPub (sessionOf "alice") = Some "alice" ∧
  ctxUserPub (sessionOf "alice") ≠ Some (author repostedAsDelivered) ∧
  (∃ f, default ∅ (reposts repostedAsDelivered) !! "alice" = Some (JObj f) ∧
        objGet f "timestamp" = JNum 1700000000000) ∧
  getRepostCount repostedAsDelivered = 1 ∧
  PostCard.isRepostedPost (sessionOf "alice") "/" repostedAsDelivered = Returned false.
Proof.
  split; [done|]. split; [simpl; discriminate|]. split; [by eexists|]. split; vm_compute; done.
Qed.

(** C10.  [replyToPost(postId, content)] returns [{success: false}] with the
    message that points to [publishPost] with [replyToId], for every input,
    and leaves the world untouched: no reply can be created through it. *)
Theorem replyToPost_always_fails (postId content : string) (w : World) :
  replyToPost postId content w = (Returned (mkResult false (Some replyError)), w) ∧
  replyError = "Please use publishPost from useSocialProtocol with replyToId parameter for content-addressed replies".
Proof. done. Qed.

(** * Further properties of the code *)

(** ** The write log of an action *)

Lemma logsExactly_readOnly {A} (m : M A) : readOnly m → logsExactly [] m.
Proof.
  intros Hm w. destruct (Hm w) as (Hg & Hu & Hw). exists [].
  rewrite app_nil_r. repeat split; try done. by destruct (fst (m w)).
Qed.

Lemma logsExactly_ret {A} (a : A) : logsExactly [] (mret a).
Proof. apply logsExactly_readOnly, readOnly_ret. Qed.

Lemma logsExactly_put E p v : logsExactly [WGun p JNull] (put E p v).
Proof.
  intros w. unfold put, gunCall. destruct (throws E (calls w)); simpl.
  - exists []. rewrite app_nil_r. repeat split; try done. apply prefix_nil.
  - by exists [WGun p v].
Qed.

Lemma logsExactly_userPut E p v : logsExactly [WUser p JNull] (userPut E p v).
Proof.
  intros w. unfold userPut, gunCall. destruct (throws E (calls w)); simpl.
  - exists []. rewrite app_nil_r. repeat split; try done. apply prefix_nil.
  - by exists [WUser p v].
Qed.

Lemma logsExactly_bind {A B} f1 f2 (m : M A) (k : A → M B) :
  logsExactly f1 m → (∀ a, logsExactly f2 (k a)) → logsExactly (f1 ++ f2) (m ≫= k).
Proof.
  intros Hm Hk w. destruct (Hm w) as (new1 & Hw1 & Hg1 & Hu1 & Ht1).
  unfold mbind, M_bind. destruct (m w) as [[a|] w1]; simpl in *.
  - destruct (Hk a w1) as (new2 & Hw2 & Hg2 & Hu2 & Ht2).
    exists (new1 ++ new2). rewrite Hw2, Hg2, Hu2, Hw1, Hg1, Hu1, !foldl_app, app_assoc, fmap_app.
    repeat split; try done. rewrite Ht1.
    destruct (fst (k a w1)); [by rewrite Ht2|by apply prefix_app].
  - exists new1. repeat split; try done. by apply prefix_app_r.
Qed.

Lemma logsPrefix_exactly {A} f (m : M A) : logsExactly f m → logsPrefix f m.
Proof.
  intros Hm w. destruct (Hm w) as (new & Hw & Hg & Hu & Ht).
  exists new. repeat split; try done. destruct (fst (m w)); [by rewrite Ht|done].
Qed.

Lemma logsPrefix_ret {A} f (a : A) : logsPrefix f (mret a).
Proof.
  intros w. exists []. rewrite app_nil_r. repeat split; try done. apply prefix_nil.
Qed.

Lemma logsPrefix_bind {A B} f1 f2 (m : M A) (k : A → M B) :
  logsExactly f1 m → (∀ a, logsPrefix f2 (k a)) → logsPrefix (f1 ++ f2) (m ≫= k).
Proof.
  intros Hm Hk w. destruct (Hm w) as (new1 & Hw1 & Hg1 & Hu1 & Ht1).
  unfold mbind, M_bind. destruct (m w) as [[a|] w1]; simpl in *.
  - destruct (Hk a w1) as (new2 & Hw2 & Hg2 & Hu2 & Ht2).
    exists (new1 ++ new2). rewrite Hw2, Hg2, Hu2, Hw1, Hg1, Hu1, !foldl_app, app_assoc, fmap_app.
    repeat split; try done. rewrite Ht1. by apply prefix_app.
  - exists new1. repeat split; try done. by apply prefix_app_r.
Qed.

Lemma logsPrefix_try {A} f (body handler : M A) :
  logsPrefix f body → readOnly handler → logsPrefix f (tryCatch body handler).
Proof.
  intros Hb Hh w. destruct (Hb w) as (new & Hw & Hg & Hu & Ht).
  unfold tryCatch. destruct (body w) as [[a|] w1]; simpl in *; [by exists new|].
  destruct (Hh w1) as (Hg2 & Hu2 & Hw2). exists new. by rewrite Hg2, Hu2, Hw2.
Qed.

Ltac logs_puts :=
  repeat first
    [ apply logsExactly_ret
    | apply logsExactly_put
    | apply logsExactly_userPut
    | apply (logsExactly_bind [] _); [apply logsExactly_readOnly, readOnly_dateNow|intros ?]
    | apply (logsExactly_bind [_] _); [|intros ?] ].

Lemma logsPrefix_logged {A} S a postId u (m : M A) w :
  identityPub S = Some u → logsPrefix (actionTargets a u postId) m →
  logged S a postId w (snd (m w)).
Proof.
  intros Hu Hm. destruct (Hm w) as (new & ? & ? & ? & ?). exists new.
  repeat split; try done. right. eauto.
Qed.

Lemma logged_refl S a postId w : logged S a postId w w.
Proof. exists []. rewrite app_nil_r. repeat split; try done. by left. Qed.

Lemma perform_logged E S a postId w :
  logged S a postId w (snd (perform E S a postId w)).
Proof.
  destruct a; unfold perform, likePost, unlikePost, repost, unrepost;
    (destruct (negb (hasGun S) || negb (isLoggedIn S)) eqn:Hguard; [apply logged_refl|]).
  - assert (∀ u, identityPub S = Some u →
              logged S Like postId w
                (snd (tryCatch
                        (put E (likesPath postId ++ [u]) (JBool true);;
                         put E (mirrorLikesPath postId ++ [u]) (JBool true);;
                         mret succeeded)
                        (mret (failed "Failed to like post")) w))) as Hbody.
    { intros u Hid. apply (logsPrefix_logged S Like postId u); [done|].
      apply logsPrefix_try; [|apply readOnly_ret].
      apply logsPrefix_exactly; simpl; logs_puts. }
    unfold identityPub in Hbody. rewrite Hguard in Hbody.
    like_prelude S Hpt Hut; [apply logged_refl|by apply Hbody|apply logged_refl|].
    destruct (userIsPub (user S)) as [u|]; [by apply Hbody|apply logged_refl].
  - assert (∀ u, identityPub S = Some u →
              logged S Unlike postId w
                (snd (tryCatch
                        (put E (likesPath postId ++ [u]) JNull;;
                         put E (mirrorLikesPath postId ++ [u]) JNull;;
                         mret succeeded)
                        (mret (failed "Failed to unlike post")) w))) as Hbody.
    { intros u Hid. apply (logsPrefix_logged S Unlike postId u); [done|].
      apply logsPrefix_try; [|apply readOnly_ret].
      apply logsPrefix_exactly; simpl; logs_puts. }
    unfold identityPub in Hbody. rewrite Hguard in Hbody.
    like_prelude S Hpt Hut; [apply logged_refl|by apply Hbody|apply logged_refl|].
    destruct (userIsPub (user S)) as [u|]; [by apply Hbody|apply logged_refl].
  - repost_prelude S Hut Hpt; [apply logged_refl|apply logged_refl|].
    destruct (resolvePub (user S) (getCurrentUserPub S)) as [u|] eqn:Hu; [|apply logged_refl].
    rewrite <- (resolveRepostPub_returns S Hut Hpt) in Hu.
    apply (resolveRepostPub_identity _ _ Hguard) in Hu.
    apply (logsPrefix_logged S Repost postId u); [done|].
    apply logsPrefix_try; [|apply readOnly_ret].
    apply (logsPrefix_bind [] _); [apply logsExactly_readOnly; read_only|intros fromHash].
    apply (logsPrefix_bind [] _); [apply logsExactly_readOnly; read_only|intros [post|]];
      [|apply logsPrefix_ret].
    apply (logsPrefix_bind [] _); [apply logsExactly_readOnly; read_only|intros ts].
    apply logsPrefix_exactly. simpl. logs_puts.
  - repost_prelude S Hut Hpt; [apply logged_refl|apply logged_refl|].
    destruct (resolvePub (user S) (getCurrentUserPub S)) as [u|] eqn:Hu; [|apply logged_refl].
    rewrite <- (resolveRepostPub_returns S Hut Hpt) in Hu.
    apply (resolveRepostPub_identity _ _ Hguard) in Hu.
    apply (logsPrefix_logged S Unrepost postId u); [done|].
    apply logsPrefix_try; [|apply readOnly_ret].
    apply logsPrefix_exactly. simpl. logs_puts.
Qed.

(** X1.  Whatever an action does, on any outcome and with any graph call
    throwing: the writes it logs are exactly the changes of the two graphs,
    and the entries written form an initial segment of the action's targets
    in program order (primary record, mirror, own index, public index), all
    keyed by the caller's key.  So a failure part-way leaves the earlier
    writes applied, and a later target is never written without the earlier
    ones. *)
Theorem action_writes_follow_program_order (E : Env) (S : Session) (a : Action)
    (postId : string) (w : World) :
  let w' := snd (perform E S a postId w) in
  ∃ new,
    writes w' = writes w ++ new ∧
    graph w' = foldl applyGun (graph w) new ∧
    userGraph w' = foldl applyUser (userGraph w) new ∧
    (new = [] ∨ ∃ u, identityPub S = Some u ∧
                     (tombstone <$> new) `prefix_of` actionTargets a u postId).
Proof.
  apply perform_logged.
Qed.

(** ** What an action leaves alone *)

Lemma foldl_applyGun_lookup (new : list Write) (g : Store) q :
  WGun q JNull ∉ tombstone <$> new → foldl applyGun g new !! q = g !! q.
Proof.
  revert g. induction new as [|wr new IH]; intros g Hq; simpl; [done|].
  rewrite fmap_cons, not_elem_of_cons in Hq. destruct Hq as [Hne Hq].
  rewrite IH by done. destruct wr as [p v|p v]; simpl in *; [|done].
  apply lookup_insert_ne. congruence.
Qed.

Lemma foldl_applyUser_lookup (new : list Write) (g : Store) q :
  WUser q JNull ∉ tombstone <$> new → foldl applyUser g new !! q = g !! q.
Proof.
  revert g. induction new as [|wr new IH]; intros g Hq; simpl; [done|].
  rewrite fmap_cons, not_elem_of_cons in Hq. destruct Hq as [Hne Hq].
  rewrite IH by done. destruct wr as [p v|p v]; simpl in *; [done|].
  apply lookup_insert_ne. congruence.
Qed.

Lemma not_elem_of_prefix {A} (x : A) (l full : list A) :
  l `prefix_of` full → x ∉ full → x ∉ l.
Proof. intros [k ->] Hx Hin. apply Hx, elem_of_app. by left. Qed.

Lemma logged_lookup S a postId w w' q :
  logged S a postId w w' →
  (∀ u, identityPub S = Some u → WGun q JNull ∉ actionTargets a u postId) →
  graph w' !! q = graph w !! q.
Proof.
  intros (new & _ & -> & _ & Hnew) Hq.
  destruct Hnew as [->|(u & Hu & Hpre)]; [done|].
  apply foldl_applyGun_lookup. eapply not_elem_of_prefix; [done|]. by apply Hq.
Qed.

Lemma logged_user_lookup S a postId w w' q :
  logged S a postId w w' →
  (∀ u, identityPub S = Some u → WUser q JNull ∉ actionTargets a u postId) →
  userGraph w' !! q = userGraph w !! q.
Proof.
  intros (new & _ & _ & -> & Hnew) Hq.
  destruct Hnew as [->|(u & Hu & Hpre)]; [done|].
  apply foldl_applyUser_lookup. eapply not_elem_of_prefix; [done|]. by apply Hq.
Qed.

Ltac not_a_target :=
  let Hin := fresh "Hin" in
  unfold actionTargets, unrepostWrites, likesPath, repostsPath, mirrorLikesPath,
    mirrorRepostsPath, userIndexPath, ownPostsPath;
  simpl; intros Hin;
  repeat (apply elem_of_cons in Hin as [Hin|Hin]; [simplify_eq; done|]);
  by apply elem_of_nil in Hin.

Lemma loadLikes_ext (g g' : Store) postId :
  (∀ k, g' !! (likesPath postId ++ [k]) = g !! (likesPath postId ++ [k])) →
  loadLikes g' postId = loadLikes g postId.
Proof. intros H. apply map_eq. intros k. by rewrite !loadLikes_lookup, H. Qed.

Lemma loadReposts_ext (g g' : Store) postId :
  (∀ k, g' !! (repostsPath postId ++ [k]) = g !! (repostsPath postId ++ [k])) →
  loadReposts g' postId = loadReposts g postId.
Proof. intros _. by rewrite !loadReposts_empty. Qed.

(** X2.  An action on [postId] leaves the like and repost records of every
    other post, and the entries of every other user under [postId], as they
    were.  Like and unlike leave the repost record and the user's own graph
    untouched; repost and unrepost leave the like record untouched.  This
    holds of the records as PostDetail loads them and of the entries as
    stored in the graph. *)
Theorem actions_touch_only_their_entries (E : Env) (S : Session) (a : Action)
    (postId : string) (w : World) :
  let w' := snd (perform E S a postId w) in
  (∀ other, other ≠ postId →
     loadLikes (graph w') other = loadLikes (graph w) other ∧
     loadReposts (graph w') other = loadReposts (graph w) other) ∧
  (∀ k, identityPub S ≠ Some k →
     loadLikes (graph w') postId !! k = loadLikes (graph w) postId !! k ∧
     loadReposts (graph w') postId !! k = loadReposts (graph w) postId !! k) ∧
  match a with
  | Like | Unlike =>
      loadReposts (graph w') postId = loadReposts (graph w) postId ∧
      (∀ q, userGraph w' !! q = userGraph w !! q)
  | Repost | Unrepost => loadLikes (graph w') postId = loadLikes (graph w) postId
  end ∧
  (∀ other k,
     (other ≠ postId ∨ identityPub S ≠ Some k ∨ a = Repost ∨ a = Unrepost →
      graph w' !! (likesPath other ++ [k]) = graph w !! (likesPath other ++ [k])) ∧
     (other ≠ postId ∨ identityPub S ≠ Some k ∨ a = Like ∨ a = Unlike →
      graph w' !! (repostsPath other ++ [k]) = graph w !! (repostsPath other ++ [k]))).
Proof.
  intros w'. pose proof (perform_logged E S a postId w) as Hlog. fold w' in Hlog.
  assert (∀ other k,
            (other ≠ postId ∨ identityPub S ≠ Some k ∨ a = Repost ∨ a = Unrepost →
             graph w' !! (likesPath other ++ [k]) = graph w !! (likesPath other ++ [k])) ∧
            (other ≠ postId ∨ identityPub S ≠ Some k ∨ a = Like ∨ a = Unlike →
             graph w' !! (repostsPath other ++ [k]) = graph w !! (repostsPath other ++ [k])))
    as Hraw.
  { intros other k. split; intros Hor.
    - eapply logged_lookup; [done|]. intros u Hu.
      destruct Hor as [?|[?|[-> | ->]]]; [destruct a; not_a_target| |not_a_target..].
      assert (u ≠ k) by congruence. destruct a; not_a_target.
    - eapply logged_lookup; [done|]. intros u Hu.
      destruct Hor as [?|[?|[-> | ->]]]; [destruct a; not_a_target| |not_a_target..].
      assert (u ≠ k) by congruence. destruct a; not_a_target. }
  split; [|split; [|split; [|exact Hraw]]].
  - intros other Hne. split.
    + apply loadLikes_ext. intros k. eapply logged_lookup; [done|].
      intros u _. destruct a; not_a_target.
    + apply loadReposts_ext. intros k. eapply logged_lookup; [done|].
      intros u _. destruct a; not_a_target.
  - intros k Hk. rewrite !loadLikes_lookup, !loadReposts_empty.
    rewrite (logged_lookup _ _ _ _ _ (likesPath postId ++ [k]) Hlog).
    2:{ intros u Hu. assert (u ≠ k) by congruence. destruct a; not_a_target. }
    done.
  - destruct a.
    + split.
      * apply loadReposts_ext. intros k. eapply logged_lookup; [done|]. intros u _. not_a_target.
      * intros q. eapply logged_user_lookup; [done|]. intros u _. not_a_target.
    + split.
      * apply loadReposts_ext. intros k. eapply logged_lookup; [done|]. intros u _. not_a_target.
      * intros q. eapply logged_user_lookup; [done|]. intros u _. not_a_target.
    + apply loadLikes_ext. intros k. eapply logged_lookup; [done|]. intros u _. not_a_target.
    + apply loadLikes_ext. intros k. eapply logged_lookup; [done|]. intros u _. not_a_target.
Qed.

(** ** The interaction loader and the markers *)

Lemma loadLikes_values (g : Store) postId k v :
  loadLikes g postId !! k = Some v →
  v = JBool true ∧ String.eqb k "" = false ∧ startsWithUnderscore k = false ∧
  g !! (likesPath postId ++ [k]) = Some (JBool true).
Proof.
  rewrite loadLikes_lookup. destruct (g !! (likesPath postId ++ [k])) as [x|]; [|done].
  destruct (likeAccepted k (delivered (likesPath postId ++ [k]) x)) eqn:Hacc; [|done].
  intros [= <-]. apply likeAccepted_delivered in Hacc as (Hk & Hu & ->).
  repeat split; try done. by apply String.eqb_neq.
Qed.

Lemma loadLikes_is_Some (g : Store) postId k :
  is_Some (loadLikes g postId !! k) ↔
  k ≠ "" ∧ startsWithUnderscore k = false ∧
  g !! (likesPath postId ++ [k]) = Some (JBool true).
Proof.
  split.
  - intros [v Hv]. destruct (loadLikes_values _ _ _ _ Hv) as (_ & Hk & Hu & Hg).
    split; [by apply String.eqb_neq|done].
  - intros (Hk & Hu & Hg). rewrite loadLikes_lookup, Hg.
    assert (likeAccepted k (delivered (likesPath postId ++ [k]) (JBool true)) = true) as ->
      by by apply likeAccepted_delivered.
    by eexists.
Qed.

Lemma countKeys_split (r : JsRecord) k :
  countKeys r = (match r !! k with
                 | Some v => if counts k v then 1 else 0
                 | None => 0
                 end) + countKeys (delete k r).
Proof.
  destruct (r !! k) as [v|] eqn:Hk.
  - rewrite <- (insert_delete_id r k v Hk) at 1.
    by rewrite countKeys_insert_fresh by apply lookup_delete_eq.
  - by rewrite delete_id.
Qed.

(** In a loaded record every entry counts: the count is the size. *)
Lemma countKeys_loaded (r : JsRecord) :
  (∀ k v, r !! k = Some v → v = JBool true ∧ startsWithUnderscore k = false) →
  countKeys r = size r.
Proof.
  induction r as [|k v r Hk IH] using map_ind; intros Hall.
  - by rewrite countKeys_empty, map_size_empty.
  - rewrite countKeys_insert_fresh, map_size_insert_None by done.
    destruct (Hall k v) as [-> Hu]; [apply lookup_insert_eq|].
    unfold counts. simpl. rewrite Hu. simpl. f_equal. apply IH.
    intros k' v' Hk'. apply Hall. rewrite lookup_insert_ne; [done|]. congruence.
Qed.

Lemma liveRepostEntry_inherited u : liveRepostEntry (inherited u) ↔ u = "__proto__".
Proof.
  unfold inherited. destruct (String.eqb_spec u "__proto__") as [->|Hne].
  - split; [done|]. intros _. right. eexists. split; [reflexivity|done].
  - destruct (existsb (String.eqb u) prototypeMethods);
      (split; [intros [?|(? & ? & _)]; done|done]).
Qed.

Lemma truthy_inherited u : truthy (inherited u) = true ↔ inherited u ≠ JUndefined.
Proof.
  unfold inherited. destruct (String.eqb u "__proto__"); [done|].
  by destruct (existsb (String.eqb u) prototypeMethods).
Qed.

(** What [isLiked] reads in a record filled by the like loader. *)
Lemma truthy_loaded (g : Store) postId u :
  truthy (jsGet (loadLikes g postId) u)
  = match loadLikes g postId !! u with
    | Some _ => true
    | None => truthy (inherited u)
    end.
Proof.
  unfold jsGet. destruct (loadLikes g postId !! u) as [v|] eqn:Hv; [|done].
  by destruct (loadLikes_values _ _ _ _ Hv) as (-> & _).
Qed.


(** X3.  For the post PostDetail builds (interaction records filled by its
    loader): the like count is the size of the loaded like record, which
    holds exactly the keys that are non-empty, do not start with ['_'] and
    store [true]; an object is delivered with its ['_'] metadata and taken by
    neither loader, so the loaded repost record is empty and the repost count
    is 0.  [isLiked] holds exactly when the session's key is a loaded key or
    names a member of [Object.prototype]; [isReposted] holds only for the key
    ['__proto__']. *)
Theorem shown_interactions_normalised (g : Store) (postId : string)
    (payload : list (string * JsVal)) (nowMs : Z) (S : Session) :
  let p := shownPost g postId payload nowMs in
  getLikeCount p = size (loadLikes g postId) ∧
  loadReposts g postId = ∅ ∧ getRepostCount p = 0 ∧
  (∀ k, is_Some (loadLikes g postId !! k) ↔
        k ≠ "" ∧ startsWithUnderscore k = false ∧
        g !! (likesPath postId ++ [k]) = Some (JBool true)) ∧
  (isLiked S p = Returned true ↔
     ∃ u, identityPub S = Some u ∧
          (is_Some (loadLikes g postId !! u) ∨ inherited u ≠ JUndefined)) ∧
  (isReposted S p = Returned true ↔ identityPub S = Some "__proto__").
Proof.
  intros p. unfold p, getLikeCount, getRepostCount.
  split; [|split; [|split; [|split; [|split]]]].
  - unfold shownPost, PostDetail.toPost. simpl.
    apply countKeys_loaded. intros k v Hk.
    by destruct (loadLikes_values _ _ _ _ Hk) as (? & _ & ? & _).
  - apply loadReposts_empty.
  - unfold shownPost, PostDetail.toPost. simpl. by rewrite loadReposts_empty, countKeys_empty.
  - intros k. apply loadLikes_is_Some.
  - pose proof (isLiked_cases S (shownPost g postId payload nowMs)) as H.
    destruct (identityPub S) as [u|].
    + rewrite H. unfold shownPost, PostDetail.toPost. simpl. rewrite truthy_loaded.
      destruct (loadLikes g postId !! u) as [v|] eqn:Hv.
      * split; [intros _; exists u; split; [done|left; by eexists]|done].
      * split.
        -- intros [= Ht]. exists u. split; [done|]. right. by apply truthy_inherited.
        -- intros (u' & [= <-] & [[? ?]|Hi]); [congruence|]. f_equal. by apply truthy_inherited.
    + split; [destruct H as [-> | ->]; done|by intros (? & ? & _)].
  - rewrite isReposted_spec. unfold shownPost, PostDetail.toPost. simpl.
    rewrite loadReposts_empty. split.
    + intros (u & r & Hu & [= <-] & Hl). unfold jsGet in Hl. rewrite lookup_empty in Hl.
      apply liveRepostEntry_inherited in Hl. by subst.
    + intros Hu. exists "__proto__", ∅. split; [done|]. split; [done|].
      unfold jsGet. rewrite lookup_empty. by apply liveRepostEntry_inherited.
Qed.

(** ** Counts and markers across an action *)


Lemma resolveRepostPub_guard S u :
  resolveRepostPub S = Some u → hasGun S = true → isLoggedIn S = true →
  identityPub S = Some u.
Proof.
  intros Hu Hg Hl. apply resolveRepostPub_identity; [|done]. by rewrite Hg, Hl.
Qed.



(** X5.  A repost does not show on the detail page.  After a successful
    [repost] the [{timestamp}] entry is stored under the user's key, but the
    graph delivers it with its ['_'] metadata and the loader of PostDetail
    skips it: the post as then shown has repost count 0 and, unless the key
    is ['__proto__'], is not marked reposted. *)
Theorem repost_not_shown_by_detail (E : Env) (S : Session) (postId : string)
    (w : World) (r : ActionResult) (w1 : World)
    (payload : list (string * JsVal)) (nowMs : Z) :
  repost E S postId w = (Returned r, w1) → success r = true →
  let after := shownPost (graph w1) postId payload nowMs in
  ∃ u t,
    identityPub S = Some u ∧
    graph w1 !! (repostsPath postId ++ [u]) = Some (JObj [("timestamp", JNum t)]) ∧
    getRepostCount after = 0 ∧
    (u ≠ "__proto__" → isReposted S after = Returned false).
Proof.
  intros Hrun Hok after.
  destruct (repost_success _ _ _ _ _ _ Hrun Hok) as (u & ts & t1 & t2 & Hu & Hg & _ & _).
  assert (identityPub S = Some u) as Hid.
  { apply resolveRepostPub_identity; [|done].
    unfold repost in Hrun.
    destruct (negb (hasGun S) || negb (isLoggedIn S)); [|done].
    injection Hrun as <- _. done. }
  exists u, t1. split; [done|]. split; [|split].
  - rewrite Hg. rewrite !lookup_insert_ne by done. apply lookup_insert_eq.
  - unfold after, shownPost, PostDetail.toPost, getRepostCount. simpl.
    by rewrite loadReposts_empty, countKeys_empty.
  - intros Hne. pose proof (isReposted_cases S after) as H. rewrite Hid in H. rewrite H.
    unfold after, shownPost, PostDetail.toPost. simpl. rewrite loadReposts_empty.
    f_equal. apply not_true_is_false. rewrite repostMarker_live.
    unfold jsGet. rewrite lookup_empty. by rewrite liveRepostEntry_inherited.
Qed.

(** alice reposts bob's post p1: the detail page still counts no repost. *)
Lemma repost_not_shown_by_detail_witness :
  let w1 := snd (repost quietEnv (sessionOf "alice") "p1" otherPostWorld) in
  graph w1 !! (repostsPath "p1" ++ ["alice"]) ≠ None ∧
  getRepostCount (shownPost (graph w1) "p1" [] 0) = 0 ∧
  isReposted (sessionOf "alice") (shownPost (graph w1) "p1" [] 0) = Returned false.
Proof.
  intros w1.
  destruct (repost_not_shown_by_detail quietEnv (sessionOf "alice") "p1" otherPostWorld
              succeeded w1 [] 0) as (u & t & Hu & Hg & Hcount & Hmark).
  - vm_compute. reflexivity.
  - reflexivity.
  - assert (u = "alice") as -> by (vm_compute in Hu; congruence).
    split; [by rewrite Hg|]. split; [done|]. by apply Hmark.
Defined.

(** X6.  For any post and an authenticated user whose key does not start
    with ['_'] and names no member of [Object.prototype]: if [isLiked] holds
    then [getLikeCount] is at least 1, and if [isReposted] holds then
    [getRepostCount] is at least 1. *)
Theorem marked_entry_is_counted (S : Session) (p : Post) (u : string) :
  identityPub S = Some u → startsWithUnderscore u = false → ownKeyOnly u →
  (isLiked S p = Returned true → (1 ≤ getLikeCount p)%nat) ∧
  (isReposted S p = Returned true → (1 ≤ getRepostCount p)%nat).
Proof.
  intros Hu Hund Hown.
  assert (∀ r : JsRecord, truthy (jsGet r u) = true → (1 ≤ countKeys r)%nat) as Hcounted.
  { intros r Ht. rewrite (countKeys_split r u). unfold jsGet in Ht.
    destruct (r !! u) as [v|]; [|by rewrite Hown in Ht].
    unfold counts. rewrite Ht, Hund. simpl. lia. }
  split.
  - pose proof (isLiked_cases S p) as H. rewrite Hu in H. rewrite H.
    unfold getLikeCount. destruct (likes p) as [r|]; [|done].
    intros [= Ht]. by apply Hcounted.
  - rewrite isReposted_spec. intros (u' & r & Hu' & Hr & Hl).
    assert (u' = u) as -> by congruence.
    unfold getRepostCount. rewrite Hr. apply Hcounted.
    destruct Hl as [->|(f & -> & _)]; done.
Qed.

Lemma marked_entry_is_counted_witness : (1 ≤ getLikeCount likedByAlice)%nat.
Proof.
  refine (proj1 (marked_entry_is_counted (sessionOf "alice") likedByAlice "alice" _ _ _) _).
  - vm_compute. reflexivity.
  - reflexivity.
  - reflexivity.
  - vm_compute. reflexivity.
Defined.

(** ** The actions when no graph call throws *)

(** X7.  When no graph call throws, [likePost], [unlikePost] and [unrepost]
    by an authenticated user succeed on any post id, whether or not a post
    is stored under it.  They read nothing: the graph calls they make are
    their two (like, unlike) or four (unrepost) writes and no other, the
    clock is not read, and both graphs change by exactly these writes. *)
Theorem plain_actions_skip_existence_check (E : Env) (S : Session) (a : Action)
    (postId u : string) (w : World) :
  quiet E → a ≠ Repost →
  identityPub S = Some u → (a = Unrepost → resolveRepostPub S = Some u) →
  let run := perform E S a postId w in
  fst run = Returned succeeded ∧
  writes (snd run) = writes w ++ plainWrites a u postId ∧
  graph (snd run) = foldl applyGun (graph w) (plainWrites a u postId) ∧
  userGraph (snd run) = foldl applyUser (userGraph w) (plainWrites a u postId) ∧
  calls (snd run) = calls w + length (plainWrites a u postId) ∧
  ticks (snd run) = ticks w.
Proof.
  intros Hq Ha Hu Hres run.
  exact (ensures_run _ _ _ (plain_action_quiet E S a postId u w Hq Ha Hu Hres)).
Qed.

(** alice likes a post id under which nothing is stored: two graph calls,
    both writes. *)
Lemma plain_actions_skip_existence_check_witness :
  let run := perform quietEnv (sessionOf "alice") Like "ghost" emptyWorld in
  fst run = Returned succeeded ∧ calls (snd run) = 2 ∧ length (writes (snd run)) = 2.
Proof.
  intros run.
  destruct (plain_actions_skip_existence_check quietEnv (sessionOf "alice") Like
              "ghost" "alice" emptyWorld) as (Hfst & Hw & _ & _ & Hc & _).
  - intros n. reflexivity.
  - discriminate.
  - vm_compute. reflexivity.
  - discriminate.
  - fold run in Hfst, Hw, Hc. rewrite Hw. done.
Defined.

(** X8.  When no graph call throws, [repost] by a user with a session key
    fails with 'Post not found' and writes nothing if neither the [#posts]
    pointer (consulted only when [SEA] is present) nor the app's posts node
    yields an object; otherwise it succeeds and makes exactly the four repost
    writes, the index entries carrying the original post's timestamp when
    that is truthy and the clock otherwise. *)
Theorem repost_succeeds_iff_resolves (E : Env) (S : Session) (postId u : string) (w : World) :
  quiet E → hasGun S = true → isLoggedIn S = true → resolveRepostPub S = Some u →
  let run := repost E S postId w in
  match resolvePost S (graph w) postId with
  | None =>
      fst run = Returned (failed "Post not found") ∧
      writes (snd run) = writes w ∧ graph (snd run) = graph w ∧
      userGraph (snd run) = userGraph w
  | Some post =>
      fst run = Returned succeeded ∧
      writes (snd run) = writes w ++
        repostWrites u postId (indexTimestamp E post (ticks w))
          (now E (ticks w + clockReads post))
          (now E (Datatypes.S (ticks w + clockReads post)))
  end.
Proof.
  apply repost_quiet.
Qed.

Lemma repost_succeeds_iff_resolves_witness :
  fst (repost quietEnv (sessionOf "alice") "ghost" emptyWorld)
    = Returned (failed "Post not found").
Proof.
  refine (proj1 (repost_succeeds_iff_resolves quietEnv (sessionOf "alice") "ghost" "alice"
                   emptyWorld _ _ _ _)).
  - intros n. reflexivity.
  - reflexivity.
  - reflexivity.
  - vm_compute. reflexivity.
Defined.

(** ** Composition of actions *)

Lemma foldl_applyGun_indep (ws : list Write) (g g' : Store) q :
  WGun q JNull ∈ tombstone <$> ws →
  foldl applyGun g ws !! q = foldl applyGun g' ws !! q.
Proof.
  induction ws as [|wr ws IH] using rev_ind; [by intros ?%elem_of_nil|].
  rewrite fmap_app, elem_of_app, !foldl_app. simpl. intros Hin.
  destruct wr as [p v|p v]; simpl in *.
  - destruct (decide (p = q)) as [->|Hne]; [by rewrite !lookup_insert_eq|].
    rewrite !lookup_insert_ne by done. apply IH.
    destruct Hin as [?|Hin%list_elem_of_singleton]; [done|congruence].
  - apply IH. destruct Hin as [?|Hin%list_elem_of_singleton]; done.
Qed.

Lemma foldl_applyUser_indep (ws : list Write) (g g' : Store) q :
  WUser q JNull ∈ tombstone <$> ws →
  foldl applyUser g ws !! q = foldl applyUser g' ws !! q.
Proof.
  induction ws as [|wr ws IH] using rev_ind; [by intros ?%elem_of_nil|].
  rewrite fmap_app, elem_of_app, !foldl_app. simpl. intros Hin.
  destruct wr as [p v|p v]; simpl in *.
  - apply IH. destruct Hin as [?|Hin%list_elem_of_singleton]; done.
  - destruct (decide (p = q)) as [->|Hne]; [by rewrite !lookup_insert_eq|].
    rewrite !lookup_insert_ne by done. apply IH.
    destruct Hin as [?|Hin%list_elem_of_singleton]; [done|congruence].
Qed.

Lemma gun_target_dec (ws : list Write) q :
  WGun q JNull ∈ tombstone <$> ws ∨ WGun q JNull ∉ tombstone <$> ws.
Proof.
  induction ws as [|wr ws IH]; [right; apply not_elem_of_nil|].
  rewrite fmap_cons. destruct IH as [?|Hn]; [left; by right|].
  destruct wr as [p v|p v]; simpl.
  - destruct (decide (p = q)) as [->|Hne]; [left; left|].
    right. rewrite not_elem_of_cons. split; [congruence|done].
  - right. rewrite not_elem_of_cons. split; [done|done].
Qed.

Lemma user_target_dec (ws : list Write) q :
  WUser q JNull ∈ tombstone <$> ws ∨ WUser q JNull ∉ tombstone <$> ws.
Proof.
  induction ws as [|wr ws IH]; [right; apply not_elem_of_nil|].
  rewrite fmap_cons. destruct IH as [?|Hn]; [left; by right|].
  destruct wr as [p v|p v]; simpl.
  - right. rewrite not_elem_of_cons. split; [done|done].
  - destruct (decide (p = q)) as [->|Hne]; [left; left|].
    right. rewrite not_elem_of_cons. split; [congruence|done].
Qed.

Lemma foldl_applyGun_absorb (ws1 ws2 : list Write) (g : Store) :
  tombstone <$> ws1 = tombstone <$> ws2 →
  foldl applyGun (foldl applyGun g ws1) ws2 = foldl applyGun g ws2.
Proof.
  intros Heq. apply map_eq. intros q.
  destruct (gun_target_dec ws2 q) as [Hin|Hnin].
  - by apply foldl_applyGun_indep.
  - rewrite !foldl_applyGun_lookup; by rewrite ?Heq.
Qed.

Lemma foldl_applyUser_absorb (ws1 ws2 : list Write) (g : Store) :
  tombstone <$> ws1 = tombstone <$> ws2 →
  foldl applyUser (foldl applyUser g ws1) ws2 = foldl applyUser g ws2.
Proof.
  intros Heq. apply map_eq. intros q.
  destruct (user_target_dec ws2 q) as [Hin|Hnin].
  - by apply foldl_applyUser_indep.
  - rewrite !foldl_applyUser_lookup; by rewrite ?Heq.
Qed.

Lemma success_passes_guard E S a postId w r w1 :
  perform E S a postId w = (Returned r, w1) → success r = true →
  negb (hasGun S) || negb (isLoggedIn S) = false.
Proof.
  intros Hrun Hok. destruct (negb (hasGun S) || negb (isLoggedIn S)) eqn:Hg; [|done].
  destruct a; unfold perform, likePost, unlikePost, repost, unrepost in Hrun;
    rewrite Hg in Hrun; injection Hrun as <- _; done.
Qed.

(** A successful action has issued all of its writes. *)
Lemma perform_success E S a postId w r w1 :
  perform E S a postId w = (Returned r, w1) → success r = true →
  ∃ u ws,
    identityPub S = Some u ∧
    tombstone <$> ws = actionTargets a u postId ∧
    (a ≠ Repost → ws = plainWrites a u postId) ∧
    writes w1 = writes w ++ ws ∧
    graph w1 = foldl applyGun (graph w) ws ∧
    userGraph w1 = foldl applyUser (userGraph w) ws.
Proof.
  intros Hrun Hok. pose proof (success_passes_guard _ _ _ _ _ _ _ Hrun Hok) as Hguard.
  destruct a; simpl in Hrun.
  - destruct (ensures_elim _ _ _ _ _ (likePost_ensures E S postId w) Hrun r eq_refl Hok)
      as (u & Hu & Hg & Hug & Hw).
    exists u, (plainWrites Like u postId). by rewrite Hg, Hug, Hw.
  - destruct (ensures_elim _ _ _ _ _ (unlikePost_ensures E S postId w) Hrun r eq_refl Hok)
      as (u & Hu & Hg & Hug & Hw).
    exists u, (plainWrites Unlike u postId). by rewrite Hg, Hug, Hw.
  - destruct (repost_success _ _ _ _ _ _ Hrun Hok) as (u & ts & t1 & t2 & Hu & Hg & Hug & Hw).
    exists u, (repostWrites u postId ts t1 t2).
    rewrite Hg, Hug, Hw. split; [by apply resolveRepostPub_identity|]. done.
  - destruct (ensures_elim _ _ _ _ _ (unrepost_ensures E S postId w) Hrun r eq_refl Hok)
      as (u & Hu & Hg & Hug & Hw).
    exists u, (plainWrites Unrepost u postId).
    rewrite Hg, Hug, Hw. split; [by apply resolveRepostPub_identity|]. done.
Qed.

Lemma actionTargets_overrides a2 a1 u postId :
  overrides a2 a1 = true → actionTargets a1 u postId = actionTargets a2 u postId.
Proof. by destruct a2, a1. Qed.

(** X9.  When both calls succeed, a like or unlike after a like or unlike,
    and an unrepost after a repost or unrepost, leave both graphs as the
    second call alone would have left them. *)
Theorem last_call_wins (E : Env) (S : Session) (postId : string) (a1 a2 : Action)
    (w : World) (r1 : ActionResult) (w1 : World) (r2 : ActionResult) (w2 : World)
    (r3 : ActionResult) (w3 : World) :
  overrides a2 a1 = true →
  perform E S a1 postId w = (Returned r1, w1) → success r1 = true →
  perform E S a2 postId w1 = (Returned r2, w2) → success r2 = true →
  perform E S a2 postId w = (Returned r3, w3) → success r3 = true →
  graph w2 = graph w3 ∧ userGraph w2 = userGraph w3.
Proof.
  intros Hov Hrun1 Hok1 Hrun2 Hok2 Hrun3 Hok3.
  destruct (perform_success _ _ _ _ _ _ _ Hrun1 Hok1) as (u1 & ws1 & Hu1 & Ht1 & _ & _ & Hg1 & Hug1).
  destruct (perform_success _ _ _ _ _ _ _ Hrun2 Hok2) as (u2 & ws2 & Hu2 & Ht2 & Hp2 & _ & Hg2 & Hug2).
  destruct (perform_success _ _ _ _ _ _ _ Hrun3 Hok3) as (u3 & ws3 & Hu3 & Ht3 & Hp3 & _ & Hg3 & Hug3).
  assert (u2 = u1) as -> by congruence. assert (u3 = u1) as -> by congruence.
  assert (a2 ≠ Repost) as Hne by (by destruct a2, a1).
  rewrite (Hp2 Hne) in *. rewrite (Hp3 Hne) in *.
  rewrite Hg2, Hg1, Hg3, Hug2, Hug1, Hug3.
  rewrite (actionTargets_overrides _ _ _ _ Hov), <- Ht2 in Ht1.
  split; [by apply foldl_applyGun_absorb|by apply foldl_applyUser_absorb].
Qed.

Lemma last_call_wins_witness :
  let w1 := snd (perform quietEnv (sessionOf "alice") Like "p1" emptyWorld) in
  graph (snd (perform quietEnv (sessionOf "alice") Unlike "p1" w1))
    = graph (snd (perform quietEnv (sessionOf "alice") Unlike "p1" emptyWorld)).
Proof.
  intros w1.
  refine (proj1 (last_call_wins quietEnv (sessionOf "alice") "p1" Like Unlike emptyWorld
                   succeeded w1
                   succeeded (snd (perform quietEnv (sessionOf "alice") Unlike "p1" w1))
                   succeeded (snd (perform quietEnv (sessionOf "alice") Unlike "p1" emptyWorld))
                   _ _ _ _ _ _ _)).
  - reflexivity.
  - vm_compute. reflexivity.
  - reflexivity.
  - vm_compute. reflexivity.
  - reflexivity.
  - vm_compute. reflexivity.
  - reflexivity.
Defined.

(** X10.  A session whose key is known to [getCurrentUserPub] but whose
    [gun.user().is.pub] is missing (both lookups return) can like and
    unlike, but [repost] and [unrepost] return 'User not authenticated' and
    change nothing. *)
Theorem repost_needs_user_session (E : Env) (S : Session) (postId u : string) (w : World) :
  quiet E → hasGun S = true → isLoggedIn S = true → lookupsReturn S →
  truthyStr (getCurrentUserPub S) = Some u → userIsPub (user S) = None →
  fst (likePost E S postId w) = Returned succeeded ∧
  fst (unlikePost E S postId w) = Returned succeeded ∧
  repost E S postId w = (Returned (failed "User not authenticated"), w) ∧
  unrepost E S postId w = (Returned (failed "User not authenticated"), w).
Proof.
  intros Hq Hgun Hlog [Hpt Hut] Hu Hnone.
  assert (identityPub S = Some u) as Hid
    by (unfold identityPub; by rewrite Hgun, Hlog, Hpt, Hu).
  split; [|split; [|split]].
  - by destruct (ensures_run _ _ _ (plain_action_quiet E S Like postId u w Hq
                                      ltac:(done) Hid ltac:(done))) as [? _].
  - by destruct (ensures_run _ _ _ (plain_action_quiet E S Unlike postId u w Hq
                                      ltac:(done) Hid ltac:(done))) as [? _].
  - unfold repost. rewrite Hgun, Hlog. simpl.
    rewrite (bind_callUser S), Hut, (bind_callPub S), Hpt.
    unfold resolvePub. by rewrite Hu, Hnone.
  - unfold unrepost. rewrite Hgun, Hlog. simpl.
    rewrite (bind_callUser S), Hut, (bind_callPub S), Hpt.
    unfold resolvePub. by rewrite Hu, Hnone.
Qed.

Lemma repost_needs_user_session_witness :
  fst (likePost quietEnv (contextOnly "alice") "p1" otherPostWorld) = Returned succeeded ∧
  fst (unlikePost quietEnv (contextOnly "alice") "p1" otherPostWorld) = Returned succeeded ∧
  repost quietEnv (contextOnly "alice") "p1" otherPostWorld
    = (Returned (failed "User not authenticated"), otherPostWorld) ∧
  unrepost quietEnv (contextOnly "alice") "p1" otherPostWorld
    = (Returned (failed "User not authenticated"), otherPostWorld).
Proof.
  refine (repost_needs_user_session quietEnv (contextOnly "alice") "p1" "alice"
            otherPostWorld _ _ _ _ _ _).
  - intros n. reflexivity.
  - reflexivity.
  - reflexivity.
  - split; reflexivity.
  - reflexivity.
  - reflexivity.
Defined.

(** ** PostCard: tags and reply sections *)

Lemma renderCard_unfold t :
  Card.renderCard t = Card.threadId t :: Card.renderSection 3 0 t.
Proof. by destruct t. Qed.

Lemma tags_existsb (prev : list Card.Tag) s :
  existsb (fun t => String.eqb (Card.slug t) s) prev = true ↔ s ∈ Card.slug <$> prev.
Proof.
  rewrite existsb_exists, list_elem_of_fmap. split.
  - intros (t & Hin & Heq%String.eqb_eq). exists t. split; [done|by apply list_elem_of_In].
  - intros (t & -> & Hin). exists t. split; [by apply list_elem_of_In|apply String.eqb_refl].
Qed.

Lemma tagsOk_onTag delivered tags tag :
  tagsOk delivered tags → tagsOk (delivered ++ [tag]) (Card.onTag tags tag).
Proof.
  intros (Hnd & Hdom & Hfirst). unfold Card.onTag.
  destruct (existsb _ tags) eqn:Hex.
  - apply tags_existsb in Hex. split; [done|]. split.
    + intros s. rewrite fmap_app, elem_of_app, Hdom. simpl.
      rewrite list_elem_of_singleton. split; [by left|]. intros [?| ->]; [done|by apply Hdom].
    + intros t Ht. destruct (Hfirst t Ht) as (pre & suf & -> & Hpre).
      exists pre, (suf ++ [tag]). by rewrite <- app_assoc.
  - assert (Card.slug tag ∉ Card.slug <$> tags) as Hnew.
    { intros Hin%tags_existsb. congruence. }
    split; [|split].
    + rewrite fmap_app. apply NoDup_app. split; [done|]. split; [|apply NoDup_singleton].
      intros s Hs ->%list_elem_of_singleton. done.
    + intros s. rewrite !fmap_app, !elem_of_app, Hdom. done.
    + intros t [Ht| ->%list_elem_of_singleton]%elem_of_app.
      * destruct (Hfirst t Ht) as (pre & suf & -> & Hpre).
        exists pre, (suf ++ [tag]). by rewrite <- app_assoc.
      * exists delivered, []. split; [done|]. by rewrite <- Hdom.
Qed.

Lemma tagsOk_tagsAfter delivered : tagsOk delivered (Card.tagsAfter delivered).
Proof.
  induction delivered as [|tag delivered IH] using rev_ind.
  - split; [constructor|]. split; [done|]. by intros t ?%elem_of_nil.
  - unfold Card.tagsAfter. rewrite fold_left_app. simpl. by apply tagsOk_onTag.
Qed.

(** X11.  PostCard's tag list after any sequence of deliveries: no slug
    occurs twice, the slugs shown are exactly the slugs delivered, and each
    tag shown is the first one delivered with its slug. *)
Theorem post_tags_first_delivery_wins (delivered : list Card.Tag) :
  NoDup (Card.slug <$> Card.tagsAfter delivered) ∧
  (∀ s, s ∈ Card.slug <$> Card.tagsAfter delivered ↔ s ∈ Card.slug <$> delivered) ∧
  (∀ t, t ∈ Card.tagsAfter delivered →
        ∃ pre suf, delivered = pre ++ t :: suf ∧ Card.slug t ∉ Card.slug <$> pre).
Proof.
  apply tagsOk_tagsAfter.
Qed.

Lemma Thread_ind_strong (P : Card.Thread → Prop) :
  (∀ p rs, Forall P rs → P (Card.ThreadNode p rs)) → ∀ t, P t.
Proof.
  intros H. fix IH 1. intros [p rs]. apply H.
  induction rs as [|r rs IHrs]; constructor; [apply IH|apply IHrs].
Qed.

Lemma count_occ_flat_map {A} (f : A → list string) (l : list A) (r : A) x :
  r ∈ l → (count_occ String.string_dec (f r) x ≤ count_occ String.string_dec (flat_map f l) x)%nat.
Proof.
  induction l as [|a l IH]; [by intros ?%elem_of_nil|].
  simpl. rewrite count_occ_app. intros [->|Hin]%elem_of_cons; [lia|].
  specialize (IH Hin). lia.
Qed.

Lemma renderCard_head t :
  (1 ≤ count_occ String.string_dec (Card.renderCard t) (Card.threadId t))%nat.
Proof. destruct t as [p rs]. simpl. destruct (String.string_dec p p); [lia|done]. Qed.

Lemma count_occ_cons_le (x y : string) l :
  (count_occ String.string_dec l x ≤ count_occ String.string_dec (y :: l) x)%nat.
Proof. simpl. destruct (String.string_dec y x); lia. Qed.

Lemma reply_rendered_in_section maxDepth d p gs g :
  g ∈ gs →
  (1 ≤ count_occ String.string_dec (Card.renderSection maxDepth d (Card.ThreadNode p gs))
         (Card.threadId g))%nat.
Proof.
  intros Hg. simpl.
  pose proof (count_occ_flat_map
                (λ r, Card.renderCard r ++
                      (if Nat.ltb d maxDepth
                       then Card.renderSection maxDepth (Datatypes.S d) r else []))
                gs g (Card.threadId g) Hg) as Hle.
  simpl in Hle. rewrite count_occ_app in Hle.
  pose proof (renderCard_head g). lia.
Qed.

(** X12.  The [maxDepth] of RepliesSection does not bound what is rendered:
    every post of a reply thread gets a PostCard, whatever its depth,
    because each PostCard starts a section of its own at depth 0; and every
    reply to a reply is rendered at least twice under the root card. *)
Theorem reply_sections_ignore_depth_limit :
  (∀ t x, x ∈ Card.threadIds t → x ∈ Card.renderCard t) ∧
  (∀ p rs r g, r ∈ rs → g ∈ Card.threadReplies r →
     (2 ≤ count_occ String.string_dec (Card.renderCard (Card.ThreadNode p rs))
            (Card.threadId g))%nat).
Proof.
  split.
  - induction t as [p rs IH] using Thread_ind_strong. intros x. simpl.
    rewrite !elem_of_cons. intros [->|Hx]; [by left|]. right.
    apply list_elem_of_In, in_flat_map in Hx as (r & Hr%list_elem_of_In & Hx%list_elem_of_In).
    apply list_elem_of_In, in_flat_map. exists r. split; [by apply list_elem_of_In|].
    apply in_or_app. left. apply list_elem_of_In.
    rewrite Forall_forall in IH. by apply IH.
  - intros p rs r g Hr Hg. destruct r as [q gs]. simpl in Hg.
    rewrite renderCard_unfold.
    etransitivity; [|apply count_occ_cons_le].
    pose proof (count_occ_flat_map
                  (λ r, Card.renderCard r ++
                        (if Nat.ltb 0 3 then Card.renderSection 3 1 r else []))
                  rs (Card.ThreadNode q gs) (Card.threadId g) Hr) as Hle.
    cbv beta in Hle. rewrite count_occ_app in Hle.
    change (Nat.ltb 0 3) with true in Hle. cbv iota in Hle.
    pose proof (reply_rendered_in_section 3 1 q gs g Hg) as H1.
    pose proof (reply_rendered_in_section 3 0 q gs g Hg) as H0.
    rewrite (renderCard_unfold (Card.ThreadNode q gs)) in Hle.
    pose proof (count_occ_cons_le (Card.threadId g) (Card.threadId (Card.ThreadNode q gs))
                  (Card.renderSection 3 0 (Card.ThreadNode q gs))) as Hc.
    change (Card.renderSection 3 0 (Card.ThreadNode p rs))
      with (flat_map (λ r, Card.renderCard r ++
                           (if Nat.ltb 0 3 then Card.renderSection 3 1 r else [])) rs).
    change (Nat.ltb 0 3) with true. cbv iota. lia.
Qed.

(** ** PostCard: the like and repost handlers *)




Lemma perform_cases E S a postId w :
  (∃ r w', perform E S a postId w = (Returned r, w')) ∨
  (perform E S a postId w = (Thrown, w) ∧ (pubThrows S = true ∨ userThrows S = true)).
Proof.
  pose proof (ensures_run _ _ _ (perform_outcome E S a postId w)) as H.
  destruct (perform E S a postId w) as [o w'] eqn:Hrun. simpl in H.
  destruct H as [(r & -> & _)|(-> & -> & Ht)]; [left; eauto|by right].
Qed.

(** X14.  [handleRepost] ends with its busy flag cleared on every outcome,
    and schedules a refresh only if [onReply] was given.  [handleLike] has no
    [finally]: it clears its flag when its action returns, and the action
    returns whatever the graph calls do unless an identity lookup throws;
    then the handler throws with nothing written, [handleLike] with its
    flag left set.  Called while the flag is set, both do nothing. *)
Theorem handlers_release_busy_flag (E : Env) (S : Session)
    (hasOnReply liked isRepostedPost reposted : bool) (post : Post) (w : World) :
  (∃ o w',
     Card.handleRepostBody E S false hasOnReply isRepostedPost reposted post w
       = (o, false, w') ∧
     (o = Returned true → hasOnReply = true) ∧
     (o = Thrown → w' = w ∧ (pubThrows S = true ∨ userThrows S = true))) ∧
  (∃ o w',
     Card.handleLikeBody E S false liked post w
       = (o, match o with Returned _ => false | Thrown => true end, w') ∧
     (o = Thrown → w' = w ∧ (pubThrows S = true ∨ userThrows S = true))) ∧
  (lookupsReturn S →
   ∃ w', Card.handleLikeBody E S false liked post w = (Returned tt, false, w')) ∧
  Card.handleLikeBody E S true liked post w = (Returned tt, true, w) ∧
  Card.handleRepostBody E S true hasOnReply isRepostedPost reposted post w
    = (Returned false, true, w).
Proof.
  split; [|split; [|split; [|done]]].
  - unfold Card.handleRepostBody.
    destruct (isRepostedPost || reposted).
    + destruct (perform_cases E S Unrepost (id post) w) as [(r & w' & Hrun)|[Hrun Ht]];
        simpl in Hrun; rewrite Hrun; eexists _, _; (split; [done|]).
      * split; [|done]. intros [= Hs]. by apply andb_true_iff in Hs as [_ ?].
      * done.
    + destruct (perform_cases E S Repost (id post) w) as [(r & w' & Hrun)|[Hrun Ht]];
        simpl in Hrun; rewrite Hrun; eexists _, _; (split; [done|]).
      * split; [|done]. intros [= Hs]. by apply andb_true_iff in Hs as [_ ?].
      * done.
  - unfold Card.handleLikeBody.
    destruct liked.
    + destruct (perform_cases E S Unlike (id post) w) as [(r & w' & Hrun)|[Hrun Ht]];
        simpl in Hrun; rewrite Hrun;
        [exists (Returned tt), w'|exists Thrown, w]; (split; [done|done]).
    + destruct (perform_cases E S Like (id post) w) as [(r & w' & Hrun)|[Hrun Ht]];
        simpl in Hrun; rewrite Hrun;
        [exists (Returned tt), w'|exists Thrown, w]; (split; [done|done]).
  - intros Hret. unfold Card.handleLikeBody.
    destruct liked.
    + destruct (ensures_run _ _ _ (perform_returns E S Unlike (id post) w Hret)) as (r & Hr & _).
      simpl in Hr. destruct (unlikePost E S (id post) w) as [o w']. simpl in Hr. subst o. eauto.
    + destruct (ensures_run _ _ _ (perform_returns E S Like (id post) w Hret)) as (r & Hr & _).
      simpl in Hr. destruct (likePost E S (id post) w) as [o w']. simpl in Hr. subst o. eauto.
Qed.

Lemma emits_unrepost_tombstones E S postId :
  emits (λ wr, wr = tombstone wr) (unrepost E S postId).
Proof.
  unfold unrepost.
  destruct (negb (hasGun S) || negb (isLoggedIn S)); [apply emits_ret|].
  apply emits_bind; [unfold callUser; destruct (userThrows S);
                     [apply emits_throw|apply emits_ret]|intros usr].
  apply emits_bind; [unfold callPub; destruct (pubThrows S);
                     [apply emits_throw|apply emits_ret]|intros userPub0].
  destruct (resolvePub usr userPub0) as [u|]; [|apply emits_ret].
  apply emits_try; [|apply emits_ret].
  repeat (apply emits_bind; [|intros ?]); try apply emits_ret;
    first [by apply emits_put | by apply emits_userPut].
Qed.

Lemma not_own_on_my_posts S p b :
  ctxUserPub S ≠ Some (author p) → isReposted S p = Returned b →
  PostCard.isRepostedPost S "/my-posts" p = Returned true.
Proof.
  intros Hne Hb. unfold PostCard.isRepostedPost, PostCard.isOwnPost. rewrite Hb. simpl.
  destruct (ctxUserPub S) as [me|]; [|done].
  destruct (String.eqb_spec (author p) me); [congruence|done].
Qed.

(** X15.  On '/my-posts', [handleRepost] on a post whose author is not the
    current user never reposts: every write it makes is a [null].  With a
    session key and no graph call throwing it makes exactly the four
    unrepost writes and schedules the refresh when [onReply] was given. *)
Theorem handleRepost_on_my_posts_removes (E : Env) (S : Session) (hasOnReply : bool)
    (p : Post) (w : World) :
  ctxUserPub S ≠ Some (author p) →
  let run := Card.handleRepost E S "/my-posts" false hasOnReply p w in
  (∃ new, writes (snd run) = writes w ++ new ∧ Forall (λ wr, wr = tombstone wr) new) ∧
  (∀ u, quiet E → hasGun S = true → isLoggedIn S = true → resolveRepostPub S = Some u →
        fst run = (Returned hasOnReply, false) ∧
        writes (snd run) = writes w ++ unrepostWrites u (id p)).
Proof.
  intros Hne run. unfold run, Card.handleRepost. split.
  - destruct (isReposted S p) as [b|] eqn:Hb.
    + rewrite (not_own_on_my_posts S p b Hne Hb). unfold Card.handleRepostBody. simpl.
      destruct (emits_unrepost_tombstones E S (id p) w) as (new & Hw & Hall).
      exists new. by destruct (unrepost E S (id p) w) as [[r|] w'].
    + exists []. rewrite app_nil_r. split; [|done].
      unfold PostCard.isRepostedPost. by rewrite Hb.
  - intros u Hq Hgun Hlog Hu.
    pose proof (resolveRepostPub_guard _ _ Hu Hgun Hlog) as Hid.
    destruct (resolveRepostPub_Some _ _ Hu) as (Hut & Hpt & _).
    destruct (isReposted_lookupsReturn S p (conj Hpt Hut)) as [b Hb].
    rewrite (not_own_on_my_posts S p b Hne Hb), Hb. unfold Card.handleRepostBody. simpl.
    pose proof (ensures_run _ _ _
                  (plain_action_quiet E S Unrepost (id p) u w Hq ltac:(done) Hid
                     ltac:(done))) as (Hfst & Hw & _).
    simpl in Hfst, Hw.
    destruct (unrepost E S (id p) w) as [o w'] eqn:Hrun. simpl in *. subst o. done.
Qed.

Lemma handleRepost_on_my_posts_removes_witness :
  let run := Card.handleRepost quietEnv (sessionOf "alice") "/my-posts" false true bobPost
               otherPostWorld in
  fst run = (Returned true, false) ∧
  writes (snd run) = writes otherPostWorld ++ unrepostWrites "alice" (id bobPost).
Proof.
  refine (proj2 (handleRepost_on_my_posts_removes quietEnv (sessionOf "alice") true bobPost
                   otherPostWorld _) "alice" _ _ _ _).
  - simpl. discriminate.
  - intros n. reflexivity.
  - reflexivity.
  - reflexivity.
  - vm_compute. reflexivity.
Defined.

(** ** The user feed *)

Lemma insertNewestFirst_sorted x l :
  newestFirst l → newestFirst (UserPosts.insertNewestFirst x l).
Proof.
  unfold newestFirst. induction 1 as [|y l Hl IH Hy]; simpl.
  - repeat constructor.
  - destruct (timestamp y <=? timestamp x)%Z eqn:Hc.
    + apply Z.leb_le in Hc. constructor; [by constructor|].
      constructor; [done|]. eapply Forall_impl; [exact Hy|]. simpl. intros. lia.
    + apply Z.leb_gt in Hc. constructor; [done|].
      rewrite insertNewestFirst_perm. constructor; [lia|done].
Qed.

Lemma sortNewestFirst_sorted l : newestFirst (UserPosts.sortNewestFirst l).
Proof.
  induction l as [|x l IH]; simpl; [constructor|]. by apply insertNewestFirst_sorted.
Qed.

Lemma feedShown_onPost st d : feedShown st → feedShown (UserPosts.onPost st d).
Proof.
  unfold feedShown, UserPosts.onPost. intros H.
  destruct (fst d) as [p|]; [|done].
  destruct (String.eqb (UserPosts.pwa_id p) ""); done.
Qed.

Lemma feed_fold (I : UserPosts.State → Prop) :
  (∀ st d, I st → I (UserPosts.onPost st d)) →
  ∀ ds st, I st → I (fold_left UserPosts.onPost ds st).
Proof.
  intros Hstep ds. induction ds as [|d ds IH]; intros st Hst; simpl; [done|].
  by apply IH, Hstep.
Qed.

(** X16.  useUserPostsBidirectional: after any sequence of deliveries the
    [posts] array is ordered newest first and is a permutation of the values
    of [postsMap]. *)
Theorem feed_sorted_newest_first (ds : list (option UserPosts.PostWithAuthor * Z)) :
  newestFirst (UserPosts.posts (UserPosts.deliver ds)) ∧
  UserPosts.posts (UserPosts.deliver ds)
    ≡ₚ UserPosts.mapValues (UserPosts.postsMap (UserPosts.deliver ds)).
Proof.
  assert (feedShown (UserPosts.deliver ds)) as Hs
    by (unfold UserPosts.deliver; apply (feed_fold feedShown); [apply feedShown_onPost|done]).
  rewrite Hs. split; [apply sortNewestFirst_sorted|apply sortNewestFirst_perm].
Qed.

Lemma mapGet_mapSet k v m k' :
  mapGet k' (UserPosts.mapSet k v m) = if decide (k = k') then Some v else mapGet k' m.
Proof.
  induction m as [|[k0 v0] m IH]; simpl.
  - destruct (String.eqb_spec k k'); case_decide; done.
  - destruct (String.eqb_spec k0 k) as [->|Hne]; simpl.
    + destruct (String.eqb_spec k k'); case_decide; done.
    + rewrite IH. destruct (String.eqb_spec k0 k'); case_decide; congruence.
Qed.

Lemma mapGet_elem k v (m : list (string * Post)) :
  NoDup m.*1 → (k, v) ∈ m → mapGet k m = Some v.
Proof.
  induction m as [|[k0 v0] m IH]; csimpl; intros Hnd Hin.
  - by apply elem_of_nil in Hin.
  - apply NoDup_cons in Hnd as [Hk0 Hnd].
    apply elem_of_cons in Hin as [[= -> ->]|Hin].
    + by rewrite String.eqb_refl.
    + destruct (String.eqb_spec k0 k) as [->|Hne]; [|by apply IH].
      exfalso. apply Hk0. apply list_elem_of_fmap. by exists (k, v).
Qed.

Lemma deliver_snoc ds d :
  UserPosts.deliver (ds ++ [d]) = UserPosts.onPost (UserPosts.deliver ds) d.
Proof. unfold UserPosts.deliver. by rewrite fold_left_app. Qed.

Lemma shown_post_in_map st q :
  feedOk st → q ∈ UserPosts.posts st → (id q, q) ∈ UserPosts.postsMap st.
Proof.
  intros (_ & Hids & Hperm) Hq. rewrite Hperm in Hq. unfold UserPosts.mapValues in Hq.
  apply list_elem_of_fmap in Hq as [[k v] [-> Hin]].
  rewrite Forall_forall in Hids. specialize (Hids _ Hin). simpl in *. by rewrite Hids.
Qed.

Lemma mapGet_Some_elem k v (m : list (string * Post)) :
  mapGet k m = Some v → (k, v) ∈ m.
Proof.
  induction m as [|[k0 v0] m IH]; simpl; [done|].
  destruct (String.eqb_spec k0 k) as [->|]; [|right; by apply IH].
  intros [= ->]. left.
Qed.

Lemma shown_iff_mapGet st q :
  feedOk st → q ∈ UserPosts.posts st ↔ mapGet (id q) (UserPosts.postsMap st) = Some q.
Proof.
  intros Hok. split.
  - intros Hq. apply mapGet_elem; [apply Hok|]. by apply shown_post_in_map.
  - intros Hq. destruct Hok as (_ & _ & Hperm). rewrite Hperm.
    unfold UserPosts.mapValues. apply list_elem_of_fmap. exists (id q, q).
    split; [done|]. by apply mapGet_Some_elem.
Qed.

(** X17.  A delivery with a non-empty id puts its post into the feed, is
    the only post of the feed with that id (an earlier version is replaced),
    and leaves the posts with other ids as they were. *)
Theorem feed_last_delivery_wins (ds : list (option UserPosts.PostWithAuthor * Z))
    (p : UserPosts.PostWithAuthor) (nowMs : Z) :
  UserPosts.pwa_id p ≠ "" →
  let before := UserPosts.deliver ds in
  let after := UserPosts.deliver (ds ++ [(Some p, nowMs)]) in
  UserPosts.toPost p nowMs ∈ UserPosts.posts after ∧
  (∀ q, q ∈ UserPosts.posts after → id q = UserPosts.pwa_id p → q = UserPosts.toPost p nowMs) ∧
  (∀ q, id q ≠ UserPosts.pwa_id p → q ∈ UserPosts.posts after ↔ q ∈ UserPosts.posts before).
Proof.
  intros Hid before after.
  pose proof (shown_iff_mapGet before) as Hb.
  pose proof (shown_iff_mapGet after) as Ha.
  assert (UserPosts.postsMap after
          = UserPosts.mapSet (UserPosts.pwa_id p) (UserPosts.toPost p nowMs)
              (UserPosts.postsMap before)) as Hmap.
  { unfold after. rewrite deliver_snoc. unfold UserPosts.onPost. simpl.
    destruct (String.eqb_spec (UserPosts.pwa_id p) ""); done. }
  specialize (λ q, Hb q (feedOk_deliver ds)).
  specialize (λ q, Ha q (feedOk_deliver _)).
  split; [|split].
  - apply Ha. rewrite Hmap, mapGet_mapSet. simpl. by rewrite decide_True.
  - intros q Hq Hidq. apply Ha in Hq. rewrite Hmap, mapGet_mapSet, Hidq in Hq.
    rewrite decide_True in Hq by done. congruence.
  - intros q Hne. rewrite Ha, Hb, Hmap, mapGet_mapSet.
    by rewrite decide_False.
Qed.

Lemma feed_last_delivery_wins_witness :
  UserPosts.toPost helloV2 1
    ∈ UserPosts.posts (UserPosts.deliver ([(Some helloV1, 0%Z)] ++ [(Some helloV2, 1%Z)])).
Proof.
  refine (proj1 (feed_last_delivery_wins [(Some helloV1, 0%Z)] helloV2 1 _)).
  simpl. discriminate.
Defined.

Lemma ids_onPost st d k :
  feedOk st →
  k ∈ (UserPosts.postsMap (UserPosts.onPost st d)).*1 ↔
  k ∈ (UserPosts.postsMap st).*1 ∨
  (feedAccepts d = true ∧ ∃ p, fst d = Some p ∧ UserPosts.pwa_id p = k).
Proof.
  intros Hok. unfold UserPosts.onPost, feedAccepts.
  destruct (fst d) as [p|]; [|split; [by left|intros [?|[? _]]; done]].
  destruct (String.eqb (UserPosts.pwa_id p) "") eqn:He; simpl;
    [split; [by left|intros [?|[? _]]; done]|].
  rewrite mapSet_keys. case_decide as Hin.
  - split; [by left|]. intros [?|(_ & p' & [= <-] & <-)]; done.
  - rewrite elem_of_app, list_elem_of_singleton. split.
    + intros [?| ->]; [by left|]. right. eauto.
    + intros [?|(_ & p' & [= <-] & <-)]; [by left|by right].
Qed.

Lemma loading_onPost st d :
  UserPosts.loading st = false ∨ feedAccepts d = true →
  UserPosts.loading (UserPosts.onPost st d) = false.
Proof.
  unfold UserPosts.onPost, feedAccepts. destruct (fst d) as [p|].
  - destruct (String.eqb (UserPosts.pwa_id p) ""); simpl; [|done]. by intros [?|?].
  - by intros [?|?].
Qed.

(** X18.  Null deliveries and deliveries without an id change nothing: the
    feed is the one the accepted deliveries alone produce; any accepted
    delivery turns [loading] off; the ids shown are exactly the non-empty
    ids delivered. *)
Theorem feed_ignores_empty_deliveries (ds : list (option UserPosts.PostWithAuthor * Z)) :
  UserPosts.deliver ds = UserPosts.deliver (List.filter feedAccepts ds) ∧
  (∀ d, d ∈ ds → feedAccepts d = true → UserPosts.loading (UserPosts.deliver ds) = false) ∧
  (∀ k, k ∈ (id <$> UserPosts.posts (UserPosts.deliver ds)) ↔
        ∃ p nowMs, (Some p, nowMs) ∈ ds ∧ UserPosts.pwa_id p = k ∧ k ≠ "").
Proof.
  split; [|split].
  - unfold UserPosts.deliver. generalize UserPosts.init.
    induction ds as [|d ds IH]; intros st; simpl; [done|].
    destruct (feedAccepts d) eqn:Hd; simpl; [apply IH|].
    rewrite <- IH. f_equal. unfold UserPosts.onPost, feedAccepts in *.
    destruct (fst d) as [p|]; [|done].
    by destruct (String.eqb (UserPosts.pwa_id p) "").
  - induction ds as [|x ds IH] using rev_ind; intros d Hin Hacc.
    + by apply elem_of_nil in Hin.
    + rewrite deliver_snoc. apply loading_onPost.
      apply elem_of_app in Hin as [Hin|Hin%list_elem_of_singleton].
      * left. by apply (IH d).
      * right. by subst x.
  - intros k.
    destruct (feedOk_deliver ds) as (_ & Hids & Hperm).
    rewrite Hperm, ids_of_values by done. clear Hids Hperm.
    induction ds as [|d ds IH] using rev_ind.
    + simpl. split; [by intros ?%elem_of_nil|]. by intros (? & ? & ?%elem_of_nil & _).
    + rewrite deliver_snoc, ids_onPost by apply feedOk_deliver. rewrite IH.
      split.
      * intros [(p & nowMs & Hin & Hk & Hne)|(Hacc & p & Hp & Hk)].
        -- exists p, nowMs. rewrite elem_of_app. eauto.
        -- destruct d as [o nowMs]. simpl in *. subst o. exists p, nowMs.
           rewrite elem_of_app, list_elem_of_singleton. split; [by right|]. split; [done|].
           unfold feedAccepts in Hacc. simpl in Hacc. subst k.
           intros He. rewrite He in Hacc. done.
      * intros (p & nowMs & Hin & Hk & Hne).
        apply elem_of_app in Hin as [Hin|Hin%list_elem_of_singleton].
        -- left. eauto.
        -- right. subst d. unfold feedAccepts. simpl. split; [|eauto].
           subst k. by destruct (String.eqb_spec (UserPosts.pwa_id p) "").
Qed.

(** ** The PostDetail lookup over time *)

Section DetailMore.
Variable G : Store.
Variable postId : string.
Variable t0 : Z.

Abbreviation handle := (PostDetail.handle G postId t0).
Abbreviation run := (PostDetail.run G postId t0).
Abbreviation runThen := (PostDetail.runThen G postId t0).

Lemma errored_advance dt st : errored st → errored (PostDetail.advance dt st).
Proof.
  unfold errored. intros [He Hl].
  destruct st as [fnd lds pend dr due asked pst ld err armed lst el]. simpl in *. subst.
  unfold PostDetail.advance, PostDetail.fireEnrich, PostDetail.fireTimeout. simpl.
  repeat case_match; simpl; done.
Qed.

Lemma errored_handle ev st : errored st → errored (handle ev st).
Proof.
  unfold errored. intros [He Hl].
  destruct st as [fnd lds pend dr due asked pst ld err armed lst el]. simpl in *. subst.
  destruct ev as [ch v|data| |]; simpl.
  - unfold PostDetail.onSoul, PostDetail.loadPostFromSoul. repeat case_match; simpl; done.
  - unfold PostDetail.onPostData. repeat case_match; simpl; done.
  - unfold PostDetail.onAuthorProfile. repeat case_match; simpl; done.
  - done.
Qed.

Lemma errored_view st : errored st → ∃ msg, PostDetail.view st = PostDetail.NotFoundView msg.
Proof.
  intros [[e He] Hl]. unfold PostDetail.view. rewrite Hl, He. by eexists.
Qed.

Lemma error_implies_errored_advance dt st :
  (is_Some (PostDetail.error st) → PostDetail.loading st = false) →
  is_Some (PostDetail.error (PostDetail.advance dt st)) →
  PostDetail.loading (PostDetail.advance dt st) = false.
Proof.
  destruct st as [fnd lds pend dr due asked pst ld err armed lst el]. simpl.
  unfold PostDetail.advance, PostDetail.fireEnrich, PostDetail.fireTimeout. simpl.
  intros H. repeat case_match; simpl; try done.
Qed.

Lemma error_implies_errored_handle ev st :
  (is_Some (PostDetail.error st) → PostDetail.loading st = false) →
  is_Some (PostDetail.error (handle ev st)) →
  PostDetail.loading (handle ev st) = false.
Proof.
  destruct st as [fnd lds pend dr due asked pst ld err armed lst el]. simpl.
  intros H. destruct ev as [ch v|data| |]; simpl.
  - unfold PostDetail.onSoul, PostDetail.loadPostFromSoul. repeat case_match; simpl; done.
  - unfold PostDetail.onPostData. repeat case_match; simpl; done.
  - unfold PostDetail.onAuthorProfile. repeat case_match; simpl; done.
  - done.
Qed.

Lemma run_app trace rest :
  run (trace ++ rest) = fold_left (PostDetail.step G postId t0) rest (run trace).
Proof. unfold PostDetail.run. apply fold_left_app. Qed.

Lemma error_errored trace : is_Some (PostDetail.error (run trace)) → errored (run trace).
Proof.
  intros He. split; [done|]. revert He. unfold PostDetail.run.
  apply (fold_step_invariant G postId t0
           (λ st, is_Some (PostDetail.error st) → PostDetail.loading st = false)).
  - intros dt st. apply error_implies_errored_advance.
  - intros ev st. apply error_implies_errored_handle.
  - by intros [? ?].
Qed.
End DetailMore.

(** X19.  Once the lookup has set an error ('Post not found' after the 8 s
    bound, or 'Post data not found'), the not-found view stays for the rest
    of the effect's life, whatever is delivered later and however much time
    passes: a post that arrives late is loaded but never shown. *)
Theorem not_found_is_sticky (G : Store) (postId : string) (t0 : Z)
    (trace rest : list (N * PostDetail.Event)) (dt : N) :
  is_Some (PostDetail.error (PostDetail.run G postId t0 trace)) →
  (∃ msg, PostDetail.view (PostDetail.run G postId t0 (trace ++ rest))
          = PostDetail.NotFoundView msg) ∧
  (∃ msg, PostDetail.view (PostDetail.runThen G postId t0 (trace ++ rest) dt)
          = PostDetail.NotFoundView msg).
Proof.
  intros He. apply error_errored in He.
  assert (errored (PostDetail.run G postId t0 (trace ++ rest))) as Hr.
  { rewrite run_app. apply (fold_step_invariant G postId t0 errored); [| |done].
    - intros ? ?. apply errored_advance.
    - intros ? ?. apply errored_handle. }
  split; [by apply errored_view|].
  apply errored_view. by apply errored_advance.
Qed.

Lemma not_found_is_sticky_witness :
  PostDetail.post (PostDetail.run ∅ "p1" 0 (soulLate ++ payloadThenAuthor)) ≠ None ∧
  ∃ msg, PostDetail.view (PostDetail.run ∅ "p1" 0 (soulLate ++ payloadThenAuthor))
         = PostDetail.NotFoundView msg.
Proof.
  split; [vm_compute; discriminate|].
  refine (proj1 (not_found_is_sticky ∅ "p1" 0 soulLate payloadThenAuthor 0 _)).
  vm_compute. eexists. reflexivity.
Defined.

Lemma hasSoul_snoc trace x : hasSoul trace → hasSoul (trace ++ [x]).
Proof. intros (dt & ch & s & Hin & Hs). exists dt, ch, s. split; [|done]. apply elem_of_app. by left. Qed.

Lemma hasPayload_snoc trace x : hasPayload trace → hasPayload (trace ++ [x]).
Proof. intros (dt & f & Hin). exists dt, f. apply elem_of_app. by left. Qed.

Lemma hasAuthor_snoc trace x : hasAuthor trace → hasAuthor (trace ++ [x]).
Proof. intros (dt & Hin). exists dt. apply elem_of_app. by left. Qed.

Lemma grounded_snoc G postId trace x st :
  grounded G postId trace st → grounded G postId (trace ++ [x]) st.
Proof.
  intros (H1 & H2 & H4 & H5). split; [done|]. split; [|split].
  - intros Hf. by apply hasSoul_snoc, H2.
  - intros p Hp. destruct (H4 p Hp) as (? & ? & ?).
    auto using hasSoul_snoc, hasPayload_snoc.
  - intros p Hp. destruct (H5 p Hp) as (? & ? & ? & ?).
    auto using hasSoul_snoc, hasPayload_snoc, hasAuthor_snoc.
Qed.

Lemma grounded_advance G postId trace dt st :
  grounded G postId trace st → grounded G postId trace (PostDetail.advance dt st).
Proof.
  destruct st as [fnd lds pend dr due asked pst ld err armed lst el].
  unfold grounded, PostDetail.advance, PostDetail.fireEnrich, PostDetail.fireTimeout. simpl.
  intros (H1 & H2 & H4 & H5). repeat case_match; simpl; done.
Qed.

Lemma grounded_handle G postId t0 trace dt ev st :
  grounded G postId trace st →
  grounded G postId (trace ++ [(dt, ev)]) (PostDetail.handle G postId t0 ev st).
Proof.
  intros Hg.
  assert ((dt, ev) ∈ trace ++ [(dt, ev)]) as Hin.
  { apply elem_of_app. right. apply list_elem_of_singleton. done. }
  apply (grounded_snoc _ _ _ (dt, ev)) in Hg. revert Hin Hg.
  generalize (trace ++ [(dt, ev)]). intros tr Hin.
  destruct st as [fnd lds pend dr due asked pst ld err armed lst el].
  unfold grounded. simpl. intros (H1 & H2 & H4 & H5).
  destruct ev as [ch v|data| |]; simpl.
  - destruct lst; simpl; [|done].
    unfold PostDetail.onSoul, PostDetail.loadPostFromSoul. simpl.
    destruct v as [| | | |s| |]; simpl; try done.
    destruct (String.eqb_spec s ""); simpl; [done|].
    destruct fnd; simpl; [done|].
    split; [done|]. split; [|done].
    intros _. by exists dt, ch, s.
  - unfold PostDetail.onPostData. simpl. destruct pend as [|n]; simpl; [done|].
    assert (hasSoul tr) as Hs by (apply H2, H1; done).
    destruct data as [| | | | |f|]; simpl; try (split; [by intros _; apply H1|done]).
    split; [by intros _; apply H1|]. split; [done|]. split; [|done].
    intros p [= <-]. split; [done|]. split; [by exists dt, f|]. done.
  - unfold PostDetail.onAuthorProfile. simpl. destruct asked; simpl; [|done].
    split; [done|]. split; [done|]. split; [done|].
    intros p Hp. destruct (H4 p Hp) as (? & ? & ?).
    split; [done|]. split; [done|]. split; [by exists dt|done].
  - done.
Qed.

Lemma grounded_run G postId t0 trace :
  grounded G postId trace (PostDetail.run G postId t0 trace).
Proof.
  induction trace as [|[dt ev] trace IH] using rev_ind.
  - unfold grounded. simpl. repeat split; done.
  - rewrite run_app. simpl. unfold PostDetail.step. simpl.
    apply grounded_handle. by apply grounded_advance.
Qed.

(** X20.  PostDetail shows a post only after a non-empty soul was
    delivered, a payload object was read and the author callback ran; the
    post shown carries the requested id and the interaction records of the
    loader, not those of the payload. *)
Theorem shown_post_needs_soul_payload_author (G : Store) (postId : string) (t0 : Z)
    (trace : list (N * PostDetail.Event)) (p : Post) :
  PostDetail.view (PostDetail.run G postId t0 trace) = PostDetail.PostView p →
  hasSoul trace ∧ hasPayload trace ∧ hasAuthor trace ∧ requested G postId p.
Proof.
  intros Hv. destruct (grounded_run G postId t0 trace) as (_ & _ & _ & H5).
  apply H5. revert Hv. unfold PostDetail.view. repeat case_match; congruence.
Qed.

Lemma shown_post_needs_soul_payload_author_witness :
  let trace := soulEarly ++ payloadThenAuthor in
  let p := shownPost ∅ "p1" [("authorPub", JStr "alice"); ("text", JStr "hello");
                              ("timestamp", JNum 5)] 20 in
  hasSoul trace ∧ hasPayload trace ∧ hasAuthor trace ∧ requested ∅ "p1" p.
Proof.
  intros trace p.
  refine (shown_post_needs_soul_payload_author ∅ "p1" 0 trace p _).
  vm_compute. reflexivity.
Defined.

Lemma spinning_advance dt st : spinning st → spinning (PostDetail.advance dt st).
Proof.
  destruct st as [fnd lds pend dr due asked pst ld err armed lst el].
  unfold spinning, PostDetail.advance, PostDetail.fireEnrich, PostDetail.fireTimeout. simpl.
  intros [-> ->]. repeat case_match; simpl; done.
Qed.

Lemma spinning_handle G postId t0 dt ev st :
  benign (dt, ev) → spinning st → spinning (PostDetail.handle G postId t0 ev st).
Proof.
  destruct st as [fnd lds pend dr due asked pst ld err armed lst el].
  unfold spinning, benign. simpl. intros Hb [-> ->].
  destruct ev as [ch v|data| |]; simpl; try done.
  - unfold PostDetail.onSoul, PostDetail.loadPostFromSoul. repeat case_match; simpl; done.
  - unfold PostDetail.onPostData. simpl. destruct data; try done. by destruct pend.
Qed.

Lemma spinning_fold G postId t0 rest st :
  Forall benign rest → spinning st →
  spinning (fold_left (PostDetail.step G postId t0) rest st).
Proof.
  intros Hb. revert st. induction Hb as [|[dt ev] rest Hx Hb IH]; intros st Hs; simpl; [done|].
  apply IH. unfold PostDetail.step. simpl.
  by eapply spinning_handle, spinning_advance.
Qed.

(** X21.  Once a soul has been accepted and the spinner is on, the spinner
    stays until the author callback runs or a payload that is no object is
    read: the 8 s timeout no longer ends the wait, nor does the cleanup. *)
Theorem spinner_waits_for_author_callback (G : Store) (postId : string) (t0 : Z)
    (trace rest : list (N * PostDetail.Event)) (dt : N) :
  spinning (PostDetail.run G postId t0 trace) →
  Forall benign rest →
  PostDetail.view (PostDetail.runThen G postId t0 (trace ++ rest) dt) = PostDetail.LoadingView.
Proof.
  intros Hs Hb. unfold PostDetail.runThen. rewrite run_app.
  destruct (spinning_advance dt _ (spinning_fold G postId t0 rest _ Hb Hs)) as [_ Hl].
  unfold PostDetail.view. by rewrite Hl.
Qed.

Lemma spinner_waits_for_author_callback_witness :
  PostDetail.view (PostDetail.runThen ∅ "p1" 0 (soulEarly ++ payloadThenUnmount) 100000)
    = PostDetail.LoadingView.
Proof.
  refine (spinner_waits_for_author_callback ∅ "p1" 0 soulEarly payloadThenUnmount 100000 _ _).
  - split; reflexivity.
  - repeat constructor.
Defined.

Lemma disposed_advance souls err dt st :
  disposed souls err st → disposed souls err (PostDetail.advance dt st).
Proof.
  destruct st as [fnd lds pend dr due asked pst ld e armed lst el].
  unfold disposed, PostDetail.advance, PostDetail.fireEnrich, PostDetail.fireTimeout. simpl.
  intros (-> & -> & -> & He). repeat case_match; simpl; done.
Qed.

Lemma disposed_handle G postId t0 souls err ev st :
  disposed souls err st → disposed souls err (PostDetail.handle G postId t0 ev st).
Proof.
  destruct st as [fnd lds pend dr due asked pst ld e armed lst el].
  unfold disposed. simpl. intros (-> & -> & -> & He).
  destruct ev as [ch v|data| |]; simpl; try done.
  - unfold PostDetail.onPostData. simpl. repeat case_match; simpl; done.
  - unfold PostDetail.onAuthorProfile. simpl. repeat case_match; simpl; done.
Qed.

(** X22.  After the effect's cleanup no further soul is read, and 'Post
    not found' is not reported unless it already was. *)
Theorem cleanup_stops_lookup (G : Store) (postId : string) (t0 : Z)
    (trace rest : list (N * PostDetail.Event)) (dt dt' : N) :
  let st0 := PostDetail.run G postId t0 (trace ++ [(dt, PostDetail.Cleanup)]) in
  let st := PostDetail.runThen G postId t0 (trace ++ (dt, PostDetail.Cleanup) :: rest) dt' in
  PostDetail.loaded st = PostDetail.loaded st0 ∧
  (PostDetail.error st = Some postNotFound → PostDetail.error st0 = Some postNotFound).
Proof.
  intros st0 st.
  assert (disposed (PostDetail.loaded st0) (PostDetail.error st0) st) as (_ & _ & ? & ?); [|done].
  subst st. unfold PostDetail.runThen. apply disposed_advance.
  replace (trace ++ (dt, PostDetail.Cleanup) :: rest)
    with ((trace ++ [(dt, PostDetail.Cleanup)]) ++ rest) by by rewrite <- app_assoc.
  rewrite run_app. fold st0.
  apply (fold_step_invariant G postId t0 (disposed (PostDetail.loaded st0) (PostDetail.error st0))).
  - intros ? ?. apply disposed_advance.
  - intros ? ?. apply disposed_handle.
  - subst st0. rewrite run_app. simpl. unfold PostDetail.step. simpl.
    unfold disposed. simpl. done.
Qed.
